(** * torchmetrics.functional.classification: a shallow embedding

    The deprecated functional classification metrics of
    [src/torchmetrics/functional/classification.py]: [stat_scores],
    [stat_scores_multiple_classes], [_confmat_normalize],
    [precision_recall] and [dice_score].

    Tensors are a shape together with row-major data of one of the three
    element types the code meets (bool, long, float).  Floating-point
    values are exact rationals extended with the two infinities and NaN,
    zero unsigned.  The functions come in an idealised form, in which
    float operations do not round, and, in the module [Float32], with
    the float32 rounding of the accumulators written out; the two agree
    on counts up to 2^24.  Integers are unbounded ([Z]); the module
    [Effectful] has the helpers of [torchmetrics.utils] as computations
    that may raise, and the 64-bit bound of the clamping.  Element-wise
    operations on two tensors are defined position by position on the
    data; torch's broadcasting of unequal shapes is not part of the model,
    and the theorems that combine two tensors assume equal shapes. *)

From Stdlib Require Import ZArith QArith Qreduction Qround Qabs Qpower.
From Stdlib Require Import String Ascii DecimalString Lia.
From stdpp Require Import base tactics option list strings gmap.

Local Open Scope Z_scope.

(** ** Floating-point values *)

Inductive float : Type :=
| Fin (q : Q)
| PInf
| NInf
| NaN.

Definition Zfloat (z : Z) : float := Fin (inject_Z z).
Definition bfloat (b : bool) : float := Zfloat (Z.b2z b).
Definition fzero : float := Zfloat 0.
Definition fone : float := Zfloat 1.

Definition isnan (x : float) : bool :=
  match x with NaN => true | _ => false end.

Definition fneg (x : float) : float :=
  match x with
  | Fin q => Fin (- q)%Q
  | PInf => NInf
  | NInf => PInf
  | NaN => NaN
  end.

Definition fadd (x y : float) : float :=
  match x, y with
  | NaN, _ | _, NaN => NaN
  | Fin a, Fin b => Fin (a + b)%Q
  | PInf, NInf | NInf, PInf => NaN
  | PInf, _ | _, PInf => PInf
  | NInf, _ | _, NInf => NInf
  end.

Definition fsub (x y : float) : float := fadd x (fneg y).

(** Sign of a value that is not NaN; zero counts as positive, as +0.0. *)
Definition fnonneg (x : float) : bool :=
  match x with
  | Fin q => Qle_bool 0 q
  | PInf => true
  | _ => false
  end.

Definition fsigned (pos : bool) : float := if pos then PInf else NInf.

Definition fmul (x y : float) : float :=
  match x, y with
  | NaN, _ | _, NaN => NaN
  | Fin a, Fin b => Fin (a * b)%Q
  | Fin a, i | i, Fin a =>
      if Qeq_bool a 0 then NaN else fsigned (Bool.eqb (Qle_bool 0 a) (fnonneg i))
  | i, j => fsigned (Bool.eqb (fnonneg i) (fnonneg j))
  end.

Definition fdiv (x y : float) : float :=
  match x, y with
  | NaN, _ | _, NaN => NaN
  | Fin a, Fin b =>
      if Qeq_bool b 0
      then (if Qeq_bool a 0 then NaN else fsigned (Qle_bool 0 a))
      else Fin (a / b)%Q
  | Fin _, _ => fzero
  | i, Fin b => fsigned (Bool.eqb (fnonneg i) (Qle_bool 0 b))
  | _, _ => NaN
  end.

(** [x == y] on floats: NaN equals nothing. *)
Definition feqb (x y : float) : bool :=
  match x, y with
  | Fin a, Fin b => Qeq_bool a b
  | PInf, PInf | NInf, NInf => true
  | _, _ => false
  end.

(** Two model values that denote the same float. *)
Definition feq (x y : float) : Prop :=
  match x, y with
  | Fin a, Fin b => (a == b)%Q
  | PInf, PInf | NInf, NInf | NaN, NaN => True
  | _, _ => False
  end.

Definition fsum (l : list float) : float := foldr fadd fzero l.

(** ** Errors and warnings *)

Inductive exn : Type :=
| ValueError (msg : string)
| IndexError (msg : string)
| RuntimeError (msg : string)
| UnboundLocalError (msg : string).

Inductive category : Type := UserWarning | DeprecationWarning.

Record warning : Type := Warning { message : string; kind : category }.

(** A call either raises or returns, and leaves the warnings it emitted,
    oldest first. *)
Definition M (A : Type) : Type := (exn + A) * list warning.

Definition raise {A} (e : exn) : M A := (inl e, []).
Definition rank_zero_warn (msg : string) (c : category) : M unit :=
  (inr tt, [Warning msg c]).

#[global] Instance M_ret : MRet M := fun A a => (inr a, []).
#[global] Instance M_bind : MBind M := fun A B k m =>
  match m with
  | (inl e, w) => (inl e, w)
  | (inr a, w) => let '(r, w') := k a in (r, w ++ w')
  end.

Definition returns {A} (m : M A) (a : A) : Prop := m.1 = inr a.
Definition raises {A} (m : M A) (e : exn) : Prop := m.1 = inl e.
Definition warnings {A} (m : M A) : list warning := m.2.

(** ** Tensors *)

Inductive storage : Type :=
| Bools (l : list bool)
| Longs (l : list Z)
| Floats (l : list float).

Record tensor : Type := Tensor { shape : list nat; data : storage }.

Definition ndim (t : tensor) : nat := length (shape t).

Definition nelement (t : tensor) : nat :=
  match data t with
  | Bools l => length l
  | Longs l => length l
  | Floats l => length l
  end.

Definition is_bool (t : tensor) : bool :=
  match data t with Bools _ => true | _ => false end.

(** The data fills the shape. *)
Definition well_formed (t : tensor) : Prop :=
  nelement t = foldr Nat.mul 1%nat (shape t).

Definition same_shape (a b : tensor) : Prop :=
  well_formed a /\ well_formed b /\ shape a = shape b.

(** [t == c] and [t != c] for a Python int [c]. *)
Definition eq_scalar (t : tensor) (c : Z) : list bool :=
  match data t with
  | Bools l => (fun b => Z.b2z b =? c) <$> l
  | Longs l => (fun x => x =? c) <$> l
  | Floats l => (fun x => feqb x (Zfloat c)) <$> l
  end.

Definition ne_scalar (t : tensor) (c : Z) : list bool := negb <$> eq_scalar t c.

(** Product of two boolean masks, [.to(torch.long)], [.sum()], [.any()]. *)
Definition mask_mul (a b : list bool) : list bool := zip_with andb a b.
Definition to_long (m : list bool) : list Z := Z.b2z <$> m.
Definition tsum (l : list Z) : Z := foldr Z.add 0 l.
Definition any (m : list bool) : bool := existsb id m.

Definition count (m : list bool) : Z := tsum (to_long m).

(** The element values as floats, as torch promotes them to compare a
    tensor with another one. *)
Definition values (t : tensor) : list float :=
  match data t with
  | Bools l => bfloat <$> l
  | Longs l => Zfloat <$> l
  | Floats l => l
  end.

(** [a == b] for two tensors of one shape. *)
Definition eq_tensor (a b : tensor) : list bool :=
  zip_with feqb (values a) (values b).

(** A clamped value: [min x max], NaN kept. *)
Definition fclamp_max (max : Z) (x : float) : float :=
  match x with
  | Fin q => if Qle_bool q (inject_Z max) then Fin q else Zfloat max
  | PInf => Zfloat max
  | NInf => NInf
  | NaN => NaN
  end.

(** [t.clamp_max(max)].  The library has no clamp for bool tensors; the
    callers test the dtype first, and the bool case is never reached. *)
Definition clamp_max (t : tensor) (max : Z) : tensor :=
  Tensor (shape t)
    match data t with
    | Bools l => Bools l
    | Longs l => Longs (Z.min max <$> l)
    | Floats l => Floats (fclamp_max max <$> l)
    end.

(** The cast of a float to long truncates toward zero; what is not finite
    becomes the least 64-bit integer, as the x86-64 conversion gives. *)
Definition float_to_long (x : float) : Z :=
  match x with
  | Fin q => Qnum q ÷ Z.pos (Qden q)
  | _ => - 2 ^ 63
  end.

(** [t.view((-1, )).long()] *)
Definition flat_long (t : tensor) : list Z :=
  match data t with
  | Bools l => Z.b2z <$> l
  | Longs l => l
  | Floats l => float_to_long <$> l
  end.

(** [torch.zeros((n, ))] *)
Definition zeros (n : Z) : M (list float) :=
  if decide (n < 0)
  then raise (RuntimeError "Trying to create tensor with negative dimension")
  else mret (replicate (Z.to_nat n) fzero).

(** [self.scatter_add_(0, index, src)] on one-dimensional tensors:
    [self[index[i]] += src[i]] for every position [i] of [index]. *)
Fixpoint scatter_loop (self : list float) (index : list Z) (src : list float)
  : M (list float) :=
  match index, src with
  | i :: index', x :: src' =>
      if decide (0 <= i < Z.of_nat (length self))
      then scatter_loop (alter (fun v => fadd v x) (Z.to_nat i) self) index' src'
      else raise (RuntimeError "index out of bounds for dimension 0")
  | _, _ => mret self
  end.

Definition scatter_add (self : list float) (index : list Z) (src : list float)
  : M (list float) :=
  if decide (length src < length index)%nat
  then raise (RuntimeError "Expected index to be smaller than src")
  else scatter_loop self index src.

(** The slice [v[:n]] of Python. *)
Definition slice_to {A} (v : list A) (n : Z) : list A :=
  if decide (0 <= n) then take (Z.to_nat n) v
  else take (length v - Z.to_nat (- n)) v.

(** What the metrics return: a zero-dimensional or a one-dimensional float
    tensor. *)
Inductive value : Type :=
| Scalar (x : float)
| Vector (v : list float).

Definition elements (v : value) : list float :=
  match v with Scalar x => [x] | Vector l => l end.

(** [a + b] on results, a scalar broadcast over a vector. *)
Definition value_add (a b : value) : value :=
  match a, b with
  | Scalar x, Scalar y => Scalar (fadd x y)
  | Scalar x, Vector l => Vector (fadd x <$> l)
  | Vector l, Scalar y => Vector ((fun x => fadd x y) <$> l)
  | Vector l, Vector l' => Vector (zip_with fadd l l')
  end.

Record stats (A : Type) : Type :=
  Stats { s_tp : A; s_fp : A; s_tn : A; s_fn : A; s_sup : A }.
Arguments Stats {A}.
Arguments s_tp {A}.
Arguments s_fp {A}.
Arguments s_tn {A}.
Arguments s_fn {A}.
Arguments s_sup {A}.

Definition stats_map {A B} (f : A -> B) (s : stats A) : stats B :=
  Stats (f (s_tp s)) (f (s_fp s)) (f (s_tn s)) (f (s_fn s)) (f (s_sup s)).

Definition possible_reductions : list string :=
  ["none"; "sum"; "elementwise_mean"]%string.

Definition deprecated_stat_scores_multiple_classes : string :=
  "This `stat_scores_multiple_classes` was deprecated in v1.2.0 in favor of"
  +:+ " `from torchmetrics.functional import stat_scores`."
  +:+ " It will be removed in v1.4.0".

Definition deprecated_precision_recall : string :=
  "This `precision_recall` was deprecated in v1.2.0 in favor of"
  +:+ " `from torchmetrcs.functional import precision_recall`."
  +:+ " It will be removed in v1.4.0".

Definition string_of_nat (n : nat) : string :=
  NilEmpty.string_of_uint (Nat.to_uint n).

Section Collaborators.

(** The helpers of [torchmetrics.utils] that the metrics call are not
    part of this file of the library.  The functions below take them as
    they come: [to_categorical t d] is the label tensor of the arg-max of
    [t] along axis [d], [get_num_classes pred target n] the number of
    classes. *)
Variable to_categorical : tensor -> Z -> tensor.
Variable get_num_classes : tensor -> tensor -> option Z -> Z.

(** The two reducers of [torchmetrics.utils], which take a strategy name
    and may reject it. *)
Variable class_reduce : value -> value -> value -> string -> M value.
Variable reduce : value -> string -> M value.

(** Lines 53-54 and 85-86. *)
Definition categorical (pred target : tensor) (argmax_dim : Z) : tensor :=
  if decide (ndim pred = ndim target + 1)%nat
  then to_categorical pred argmax_dim
  else pred.

Definition stat_scores (pred target : tensor) (class_index : Z) (argmax_dim : Z)
  : stats Z :=
  let pred := categorical pred target argmax_dim in
  let tp := count (mask_mul (eq_scalar pred class_index) (eq_scalar target class_index)) in
  let fp := count (mask_mul (eq_scalar pred class_index) (ne_scalar target class_index)) in
  let tn := count (mask_mul (ne_scalar pred class_index) (ne_scalar target class_index)) in
  let fn := count (mask_mul (ne_scalar pred class_index) (eq_scalar target class_index)) in
  let sup := count (eq_scalar target class_index) in
  Stats tp fp tn fn sup.

(** Lines 85-93: conversion, number of classes, clamping. *)
Definition prepare (pred target : tensor) (num_classes : option Z) (argmax_dim : Z)
  : tensor * tensor * Z :=
  let pred := categorical pred target argmax_dim in
  let num_classes := get_num_classes pred target num_classes in
  let pred := if negb (is_bool pred) then clamp_max pred num_classes else pred in
  let target := if negb (is_bool target) then clamp_max target num_classes else target in
  (pred, target, num_classes).

(** Lines 100-121, the branch of [reduction == 'none']. *)
Definition stats_none (pred target : tensor) (num_classes : Z)
  : M (stats (list float)) :=
  let pred := flat_long pred in
  let target := flat_long target in
  tps ← zeros (num_classes + 1);
  fps ← zeros (num_classes + 1);
  fns ← zeros (num_classes + 1);
  sups ← zeros (num_classes + 1);
  let match_true := zip_with (fun p t => bfloat (p =? t)) pred target in
  let match_false := fsub fone <$> match_true in
  tps ← scatter_add tps pred match_true;
  fps ← scatter_add fps pred match_false;
  fns ← scatter_add fns target match_false;
  let tns := fsub (Zfloat (Z.of_nat (length pred)))
               <$> zip_with fadd (zip_with fadd tps fps) fns in
  sups ← scatter_add sups target ((fun _ => fone) <$> match_true);
  mret (Stats (slice_to tps num_classes) (slice_to fps num_classes)
          (slice_to tns num_classes) (slice_to fns num_classes)
          (slice_to sups num_classes)).

(** Lines 124-131, shared by [reduction == 'sum'] and
    ['elementwise_mean']. *)
Definition stats_sum (pred target : tensor) (num_classes : Z) (argmax_dim : Z)
  : stats float :=
  let count_match_true := Zfloat (count (eq_tensor pred target)) in
  let oob := stat_scores pred target num_classes argmax_dim in
  let nelement := Z.of_nat (nelement pred) in
  let tps := fsub count_match_true (Zfloat (s_tp oob)) in
  let fps := fsub (fsub (Zfloat nelement) count_match_true) (Zfloat (s_fp oob)) in
  let fns := fsub (fsub (Zfloat nelement) count_match_true) (Zfloat (s_fn oob)) in
  let tns := fsub (Zfloat (nelement * (num_classes + 1)))
               (fadd (fadd (fadd tps fps) fns) (Zfloat (s_tn oob))) in
  let sups := fsub (Zfloat nelement) (Zfloat (s_sup oob)) in
  Stats tps fps tns fns sups.

Definition stat_scores_multiple_classes (pred target : tensor)
    (num_classes : option Z) (argmax_dim : Z) (reduction : string)
  : M (stats value) :=
  rank_zero_warn deprecated_stat_scores_multiple_classes DeprecationWarning;;
  let '(pred, target, num_classes) := prepare pred target num_classes argmax_dim in
  if negb (bool_decide (reduction ∈ possible_reductions))
  then raise (ValueError ("reduction type " +:+ reduction +:+ " not supported"))
  else if (reduction =? "none")%string
  then s ← stats_none pred target num_classes; mret (stats_map Vector s)
  else if (reduction =? "sum")%string || (reduction =? "elementwise_mean")%string
  then
    let s := stats_sum pred target num_classes argmax_dim in
    let s := if (reduction =? "elementwise_mean")%string
             then stats_map (fun x => fdiv x (Zfloat num_classes)) s
             else s in
    mret (stats_map Scalar s)
  else raise (UnboundLocalError "local variable 'tps' referenced before assignment").

(** What [precision_recall] returns: a pair, a triple, or the state
    dictionary. *)
Inductive pr_result : Type :=
| PrecisionRecall (precision recall : value)
| PrecisionRecallSupport (precision recall sups : value)
| State (d : gmap string value).

Definition precision_recall (pred target : tensor) (num_classes : option Z)
    (class_reduction : string) (return_support return_state : bool)
  : M pr_result :=
  rank_zero_warn deprecated_precision_recall DeprecationWarning;;
  s ← stat_scores_multiple_classes pred target num_classes 1 "none";
  let '(Stats tps fps tns fns sups) := s in
  precision ← class_reduce tps (value_add tps fps) sups class_reduction;
  recall ← class_reduce tps (value_add tps fns) sups class_reduction;
  if return_state
  then mret (State (<["tps" := tps]> (<["fps" := fps]>
                      (<["fns" := fns]> (<["sups" := sups]> ∅)))))
  else if return_support
  then mret (PrecisionRecallSupport precision recall sups)
  else mret (PrecisionRecall precision recall).

(** [pred.shape[1]] *)
Definition shape_at (t : tensor) (i : nat) : M Z :=
  match shape t !! i with
  | Some d => mret (Z.of_nat d)
  | None => raise (IndexError "tuple index out of range")
  end.

(** The score added for one class, lines 375-383.  A class without
    foreground takes [no_fg_score] and goes on with the next class
    ([continue]); its statistics are not taken. *)
Definition dice_class (pred target : tensor) (nan_score no_fg_score : float)
    (i : Z) : float :=
  if negb (any (eq_scalar target i))
  then no_fg_score
  else
    let s := stat_scores pred target i 1 in
    let denom := Zfloat (2 * s_tp s + s_fp s + s_fn s) in
    if negb (feqb denom fzero)
    then fdiv (Zfloat (2 * s_tp s)) denom
    else nan_score.

(** One turn of the loop of lines 374-385: [scores[i - bg] += ...]. *)
Definition dice_step (pred target : tensor) (bg : Z)
    (nan_score no_fg_score : float) (scores : list float) (i : Z)
  : list float :=
  alter (fun v => fadd v (dice_class pred target nan_score no_fg_score i))
    (Z.to_nat (i - bg)) scores.

(** Lines 371-385: the vector of scores, one per class of the range. *)
Definition dice_scores (pred target : tensor) (bg : bool)
    (nan_score no_fg_score : float) : M (list float) :=
  num_classes ← shape_at pred 1;
  let bg := 1 - Z.b2z bg in
  scores ← zeros (num_classes - bg);
  mret (foldl (dice_step pred target bg nan_score no_fg_score) scores
          (seqZ bg (num_classes - bg))).


End Collaborators.

(** ** The AUC decorators *)

Definition deprecated_auc_decorator : string :=
  "This `auc_decorator` was deprecated in v1.2.0."
  +:+ " It will be removed in v1.4.0".

Definition deprecated_multiclass_auc_decorator : string :=
  "This `multiclass_auc_decorator` was deprecated in v1.2.0."
  +:+ " It will be removed in v1.4.0".

(** [x, y = items[:2]]: the slice holds two items at most, and the
    assignment needs two. *)
Definition unpack_two {A} (items : list A) : M (A * A) :=
  match take 2 items with
  | [x; y] => mret (x, y)
  | short =>
      raise (ValueError ("not enough values to unpack (expected 2, got "
                         +:+ string_of_nat (length short) +:+ ")"))
  end.

(** [torch.stack(results)] of zero-dimensional tensors. *)
Definition stack (results : list float) : M (list float) :=
  match results with
  | [] => raise (RuntimeError "stack expects a non-empty TensorList")
  | _ => mret results
  end.

Section Decorators.

(** [auc] of [torchmetrics.functional.auc] is not part of this file of the
    library: it takes two tensors and gives a zero-dimensional one.  The
    decorated function takes arguments of any kind and gives a sequence. *)
Variable auc : tensor -> tensor -> M float.
Context {Args : Type}.

(** Lines 296-309.  The warning belongs to the call [auc_decorator()];
    what the call returns is [wrapper], which gives [new_func]. *)
Definition auc_decorator : M ((Args -> M (list tensor)) -> Args -> M float) :=
  rank_zero_warn deprecated_auc_decorator DeprecationWarning;;
  mret (fun func_to_decorate args =>
          r ← func_to_decorate args;
          xy ← unpack_two r;
          auc xy.1 xy.2).

(** The loop of lines 322-325, which fills [results] in order. *)
Fixpoint auc_loop (class_results : list (list tensor)) : M (list float) :=
  match class_results with
  | [] => mret []
  | class_result :: rest =>
      xy ← unpack_two class_result;
      a ← auc xy.1 xy.2;
      results ← auc_loop rest;
      mret (a :: results)
  end.

(** Lines 312-331. *)
Definition multiclass_auc_decorator
  : M ((Args -> M (list (list tensor))) -> Args -> M (list float)) :=
  rank_zero_warn deprecated_multiclass_auc_decorator DeprecationWarning;;
  mret (fun func_to_decorate args =>
          class_results ← func_to_decorate args;
          results ← auc_loop class_results;
          stack results).

End Decorators.

(** ** Confusion-matrix normalisation

    The matrix is the list of its rows (the slices along the last
    axis). *)

Definition nan_to_zero (x : float) : float := if isnan x then fzero else x.

Definition _confmat_normalize (cm : list (list float)) : M (list (list float)) :=
  let cm := (fun row => (fun x => fdiv x (fsum row)) <$> row) <$> cm in
  let nan_elements := length (filter (fun x => isnan x = true) (concat cm)) in
  if decide (nan_elements ≠ 0%nat)
  then
    let cm := fmap (M := list) nan_to_zero <$> cm in
    rank_zero_warn
      (string_of_nat nan_elements
       +:+ " nan values found in confusion matrix have been replaced with zeros.")
      UserWarning;;
    mret cm
  else mret cm.

(** ** The collaborators, from their contracts *)

#[global] Instance float_inhabited : Inhabited float := populate fzero.

(** [x < y] with NaN above every other value, the order of arg-max. *)
Definition fltb (x y : float) : bool :=
  match x, y with
  | NaN, _ => false
  | _, NaN => true
  | Fin a, Fin b => negb (Qle_bool b a)
  | PInf, _ => false
  | _, PInf => true
  | _, NInf => false
  | NInf, _ => true
  end.

Fixpoint argmax_from (i best : Z) (top : float) (l : list float) : Z :=
  match l with
  | [] => best
  | x :: l' =>
      if fltb top x then argmax_from (i + 1) i x l'
      else argmax_from (i + 1) best top l'
  end.

(** Index of the first greatest element. *)
Definition argmax (l : list float) : Z :=
  match l with
  | [] => 0
  | x :: l' => argmax_from 1 0 x l'
  end.

(** An axis counted from the front or, when negative, from the back. *)
Definition resolve_dim (n : nat) (d : Z) : option nat :=
  if decide (0 <= d < Z.of_nat n) then Some (Z.to_nat d)
  else if decide (- Z.of_nat n <= d < 0) then Some (Z.to_nat (Z.of_nat n + d))
  else None.

Definition prod_list (l : list nat) : nat := foldr Nat.mul 1%nat l.

(** Modelled from the spec: [to_categorical] of [torchmetrics.utils], the
    Categorical Converter, "converts pred to a Label Tensor by taking the
    arg-max along the specified axis".  The function is total: an axis
    that the tensor does not have leaves the tensor as it is. *)
Definition to_categorical_model (t : tensor) (argmax_dim : Z) : tensor :=
  match resolve_dim (ndim t) argmax_dim with
  | None => t
  | Some a =>
      let outer := prod_list (take a (shape t)) in
      let n := shape t !!! a in
      let inner := prod_list (drop (S a) (shape t)) in
      let v := values t in
      let cell o k :=
        argmax ((fun j => v !!! ((o * n + j) * inner + k)%nat) <$> seq 0 n) in
      Tensor (take a (shape t) ++ drop (S a) (shape t))
        (Longs (o ← seq 0 outer; cell o <$> seq 0 inner))
  end.

(** Modelled from the spec: [get_num_classes] of [torchmetrics.utils],
    "an optional num_classes (inferred as max(observed class id) + 1 when
    omitted)".  No observed class gives no class. *)
Definition get_num_classes_model (pred target : tensor) (num_classes : option Z) : Z :=
  match num_classes with
  | Some n => n
  | None => foldr Z.max (-1) (flat_long pred ++ flat_long target) + 1
  end.

Definition fmean (l : list float) : float :=
  fdiv (fsum l) (Zfloat (Z.of_nat (length l))).

(** A ratio with 0/0 counted as 0. *)
Definition ratio (x y : float) : float := nan_to_zero (fdiv x y).

(** Modelled from the spec: [class_reduce] of [torchmetrics.utils], the
    Class Reducer, "micro = sum(numerator)/sum(denominator); macro = mean
    of per-class ratios (0/0 treated as 0 contribution by convention of the
    collaborator); weighted = support-weighted mean of per-class ratios;
    none = the per-class ratio vector unchanged"; a strategy name outside
    these four is an InvalidArgument failure naming the value. *)
Definition class_reduce_model (num denom weights : value) (class_reduction : string)
  : M value :=
  let num := elements num in
  let denom := elements denom in
  let weights := elements weights in
  let fraction := zip_with ratio num denom in
  if (class_reduction =? "micro")%string
  then mret (Scalar (ratio (fsum num) (fsum denom)))
  else if (class_reduction =? "macro")%string
  then mret (Scalar (fmean fraction))
  else if (class_reduction =? "weighted")%string
  then mret (Scalar (fsum (zip_with fmul fraction
                             ((fun w => fdiv w (fsum weights)) <$> weights))))
  else if (class_reduction =? "none")%string
  then mret (Vector fraction)
  else raise (ValueError ("Reduction parameter " +:+ class_reduction +:+ " unknown."))%string.

(** Modelled from the spec: [reduce] of [torchmetrics.utils], the Generic
    Reducer, "(values, strategy in elementwise_mean, sum, none)", "mean,
    sum, or identity"; another strategy name is an InvalidArgument
    failure. *)
Definition reduce_model (to_reduce : value) (reduction : string) : M value :=
  if (reduction =? "elementwise_mean")%string
  then mret (Scalar (fmean (elements to_reduce)))
  else if (reduction =? "none")%string
  then mret to_reduce
  else if (reduction =? "sum")%string
  then mret (Scalar (fsum (elements to_reduce)))
  else raise (ValueError "Reduction parameter unknown.").

(** ** The multi-class statistics with helpers that may raise or warn

    [to_categorical] and [get_num_classes] run before the reduction is
    looked at (lines 85-88), and so does the clamping (lines 90-93).  In
    this module the two helpers are computations, which may raise and
    warn, and the clamping checks its bound; all the rest is as above. *)

Definition string_of_Z (z : Z) : string := NilEmpty.string_of_int (Z.to_int z).

Module Effectful.

(** [t.clamp_max(max=n)] for a Python int [n], which has to fit the 64-bit
    scalar of torch. *)
Definition clamp_max (t : tensor) (max : Z) : M tensor :=
  if decide (- 2 ^ 63 <= max < 2 ^ 63)
  then mret (clamp_max t max)
  else raise (RuntimeError "Overflow when unpacking long").

Section Helpers.

Variable to_categorical : tensor -> Z -> M tensor.
Variable get_num_classes : tensor -> tensor -> option Z -> M Z.

(** Lines 53-54 and 85-86. *)
Definition categorical (pred target : tensor) (argmax_dim : Z) : M tensor :=
  if decide (ndim pred = ndim target + 1)%nat
  then to_categorical pred argmax_dim
  else mret pred.

(** Lines 53-62. *)
Definition stat_scores (pred target : tensor) (class_index : Z) (argmax_dim : Z)
  : M (stats Z) :=
  pred ← categorical pred target argmax_dim;
  let tp := count (mask_mul (eq_scalar pred class_index) (eq_scalar target class_index)) in
  let fp := count (mask_mul (eq_scalar pred class_index) (ne_scalar target class_index)) in
  let tn := count (mask_mul (ne_scalar pred class_index) (ne_scalar target class_index)) in
  let fn := count (mask_mul (ne_scalar pred class_index) (eq_scalar target class_index)) in
  let sup := count (eq_scalar target class_index) in
  mret (Stats tp fp tn fn sup).

(** Lines 85-93: conversion, number of classes, clamping. *)
Definition prepare (pred target : tensor) (num_classes : option Z) (argmax_dim : Z)
  : M (tensor * tensor * Z) :=
  pred ← categorical pred target argmax_dim;
  num_classes ← get_num_classes pred target num_classes;
  pred ← (if negb (is_bool pred) then clamp_max pred num_classes else mret pred);
  target ← (if negb (is_bool target) then clamp_max target num_classes else mret target);
  mret (pred, target, num_classes).

(** Lines 124-131. *)
Definition stats_sum (pred target : tensor) (num_classes : Z) (argmax_dim : Z)
  : M (stats float) :=
  let count_match_true := Zfloat (count (eq_tensor pred target)) in
  oob ← stat_scores pred target num_classes argmax_dim;
  let nelement := Z.of_nat (nelement pred) in
  let tps := fsub count_match_true (Zfloat (s_tp oob)) in
  let fps := fsub (fsub (Zfloat nelement) count_match_true) (Zfloat (s_fp oob)) in
  let fns := fsub (fsub (Zfloat nelement) count_match_true) (Zfloat (s_fn oob)) in
  let tns := fsub (Zfloat (nelement * (num_classes + 1)))
               (fadd (fadd (fadd tps fps) fns) (Zfloat (s_tn oob))) in
  let sups := fsub (Zfloat nelement) (Zfloat (s_sup oob)) in
  mret (Stats tps fps tns fns sups).

(** Lines 80-140. *)
Definition stat_scores_multiple_classes (pred target : tensor)
    (num_classes : option Z) (argmax_dim : Z) (reduction : string)
  : M (stats value) :=
  rank_zero_warn deprecated_stat_scores_multiple_classes DeprecationWarning;;
  r ← prepare pred target num_classes argmax_dim;
  let '(pred, target, num_classes) := r in
  if negb (bool_decide (reduction ∈ possible_reductions))
  then raise (ValueError ("reduction type " +:+ reduction +:+ " not supported"))
  else if (reduction =? "none")%string
  then s ← stats_none pred target num_classes; mret (stats_map Vector s)
  else if (reduction =? "sum")%string || (reduction =? "elementwise_mean")%string
  then
    s ← stats_sum pred target num_classes argmax_dim;
    let s := if (reduction =? "elementwise_mean")%string
             then stats_map (fun x => fdiv x (Zfloat num_classes)) s
             else s in
    mret (stats_map Scalar s)
  else raise (UnboundLocalError "local variable 'tps' referenced before assignment").

End Helpers.

(** Modelled from the spec: [to_categorical] of [torchmetrics.utils], the
    Categorical Converter, "converts pred to a Label Tensor by taking the
    arg-max along the specified axis"; an axis that the tensor does not
    have is an error of the arg-max. *)
Definition to_categorical_model (t : tensor) (argmax_dim : Z) : M tensor :=
  match resolve_dim (ndim t) argmax_dim with
  | Some _ => mret (to_categorical_model t argmax_dim)
  | None =>
      raise (IndexError
               ("Dimension out of range (expected to be in range of ["
                +:+ string_of_Z (- Z.of_nat (ndim t)) +:+ ", "
                +:+ string_of_Z (Z.of_nat (ndim t) - 1) +:+ "], but got "
                +:+ string_of_Z argmax_dim +:+ ")"))
  end.

End Effectful.

(** ** Single precision

    The accumulators of [stat_scores_multiple_classes] are float32 tensors
    ([torch.zeros] and [.float()], lines 103-131), and so is [scores] of
    [dice_score] (line 373): what meets them is cast to float32 and every
    sum, difference and quotient is rounded to float32.  In this module
    the rounding is written out; the masks and the integer counts are
    taken as above. *)

Module Float32.

(** The nearest integer, the even one of two that are equally near. *)
Definition round_even (q : Q) : Z :=
  let f := Qfloor q in
  match (q - inject_Z f ?= 1 # 2)%Q with
  | Lt => f
  | Gt => f + 1
  | Eq => if Z.even f then f else f + 1
  end.

(** The exponent [e] with [2^e <= |q| < 2^(e+1)], for [q] other than 0. *)
Definition binade (q : Q) : Z :=
  let e := Z.log2 (Z.abs (Qnum q)) - Z.log2 (Z.pos (Qden q)) in
  if Qle_bool (2 ^ e) (Qabs q) then e else e - 1.

(** The binary32 value nearest to [q], ties to even: 24 bits of
    significand, exponents from -126 (below, the subnormal spacing
    2^-149) to 127 (above, infinity). *)
Definition round (q : Q) : float :=
  if Qeq_bool q 0 then fzero
  else
    let e := Z.max (binade q) (-126) in
    let ulp := (2 ^ (e - 23))%Q in
    let r := (inject_Z (round_even (q / ulp)) * ulp)%Q in
    if Qle_bool (2 ^ 128) (Qabs r) then fsigned (Qle_bool 0 q) else Fin (Qred r).

(** [x.to(torch.float32)], and the cast of a Python float that meets a
    float32 tensor. *)
Definition cast (x : float) : float :=
  match x with
  | Fin q => round q
  | _ => x
  end.

(** A Python int or a long tensor as an operand of float32 arithmetic. *)
Definition of_Z (z : Z) : float := cast (Zfloat z).

(** The float32 sum, difference and quotient. *)
Definition add (x y : float) : float := cast (fadd x y).
Definition sub (x y : float) : float := cast (fsub x y).
Definition div (x y : float) : float := cast (fdiv x y).

(** [self.scatter_add_(0, index, src)] on one-dimensional float32
    tensors. *)
Fixpoint scatter_loop (self : list float) (index : list Z) (src : list float)
  : M (list float) :=
  match index, src with
  | i :: index', x :: src' =>
      if decide (0 <= i < Z.of_nat (length self))
      then scatter_loop (alter (fun v => add v x) (Z.to_nat i) self) index' src'
      else raise (RuntimeError "index out of bounds for dimension 0")
  | _, _ => mret self
  end.

Definition scatter_add (self : list float) (index : list Z) (src : list float)
  : M (list float) :=
  if decide (length src < length index)%nat
  then raise (RuntimeError "Expected index to be smaller than src")
  else scatter_loop self index src.

(** Lines 100-121, the branch of [reduction == 'none']. *)
Definition stats_none (pred target : tensor) (num_classes : Z)
  : M (stats (list float)) :=
  let pred := flat_long pred in
  let target := flat_long target in
  tps ← zeros (num_classes + 1);
  fps ← zeros (num_classes + 1);
  fns ← zeros (num_classes + 1);
  sups ← zeros (num_classes + 1);
  let match_true := zip_with (fun p t => bfloat (p =? t)) pred target in
  let match_false := sub fone <$> match_true in
  tps ← scatter_add tps pred match_true;
  fps ← scatter_add fps pred match_false;
  fns ← scatter_add fns target match_false;
  let tns := sub (of_Z (Z.of_nat (length pred)))
               <$> zip_with add (zip_with add tps fps) fns in
  sups ← scatter_add sups target ((fun _ => fone) <$> match_true);
  mret (Stats (slice_to tps num_classes) (slice_to fps num_classes)
          (slice_to tns num_classes) (slice_to fns num_classes)
          (slice_to sups num_classes)).

Section Converter.

Variable to_categorical : tensor -> Z -> tensor.
Variable get_num_classes : tensor -> tensor -> option Z -> Z.

(** Lines 124-131, shared by [reduction == 'sum'] and
    ['elementwise_mean']. *)
Definition stats_sum (pred target : tensor) (num_classes : Z) (argmax_dim : Z)
  : stats float :=
  let count_match_true := of_Z (count (eq_tensor pred target)) in
  let oob := stat_scores to_categorical pred target num_classes argmax_dim in
  let nelement := Z.of_nat (nelement pred) in
  let tps := sub count_match_true (of_Z (s_tp oob)) in
  let fps := sub (sub (of_Z nelement) count_match_true) (of_Z (s_fp oob)) in
  let fns := sub (sub (of_Z nelement) count_match_true) (of_Z (s_fn oob)) in
  let tns := sub (of_Z (nelement * (num_classes + 1)))
               (add (add (add tps fps) fns) (of_Z (s_tn oob))) in
  let sups := sub (of_Z nelement) (of_Z (s_sup oob)) in
  Stats tps fps tns fns sups.

(** Lines 80-140. *)
Definition stat_scores_multiple_classes (pred target : tensor)
    (num_classes : option Z) (argmax_dim : Z) (reduction : string)
  : M (stats value) :=
  rank_zero_warn deprecated_stat_scores_multiple_classes DeprecationWarning;;
  let '(pred, target, num_classes) :=
    prepare to_categorical get_num_classes pred target num_classes argmax_dim in
  if negb (bool_decide (reduction ∈ possible_reductions))
  then raise (ValueError ("reduction type " +:+ reduction +:+ " not supported"))
  else if (reduction =? "none")%string
  then s ← stats_none pred target num_classes; mret (stats_map Vector s)
  else if (reduction =? "sum")%string || (reduction =? "elementwise_mean")%string
  then
    let s := stats_sum pred target num_classes argmax_dim in
    let s := if (reduction =? "elementwise_mean")%string
             then stats_map (fun x => div x (of_Z num_classes)) s
             else s in
    mret (stats_map Scalar s)
  else raise (UnboundLocalError "local variable 'tps' referenced before assignment").

(** What is added for one class, lines 375-383: [no_fg_score] or
    [nan_score] as they are given, or the float32 quotient of the two
    counts cast to float32. *)
Definition dice_class (pred target : tensor) (nan_score no_fg_score : float)
    (i : Z) : float :=
  if negb (any (eq_scalar target i)) then no_fg_score
  else
    let s := stat_scores to_categorical pred target i 1 in
    let denom := of_Z (2 * s_tp s + s_fp s + s_fn s) in
    if negb (feqb denom fzero)
    then div (of_Z (2 * s_tp s)) denom
    else nan_score.

(** [scores[i - bg] += x]: [x] is cast to the type of the tensor, and the
    float32 sum is stored. *)
Definition dice_step (pred target : tensor) (bg : Z)
    (nan_score no_fg_score : float) (scores : list float) (i : Z)
  : list float :=
  alter (fun v => add v (cast (dice_class pred target nan_score no_fg_score i)))
    (Z.to_nat (i - bg)) scores.

(** Lines 371-385. *)
Definition dice_scores (pred target : tensor) (bg : bool)
    (nan_score no_fg_score : float) : M (list float) :=
  num_classes ← shape_at pred 1;
  let bg := 1 - Z.b2z bg in
  scores ← zeros (num_classes - bg);
  mret (foldl (dice_step pred target bg nan_score no_fg_score) scores
          (seqZ bg (num_classes - bg))).

End Converter.

End Float32.

(** ** Tensors of the examples *)

(** [torch.tensor([l0, l1, ...])] of integer labels. *)
Definition label_tensor (l : list Z) : tensor := Tensor [length l] (Longs l).

(** [torch.tensor([[...], [...], ...])] of float rows of one length. *)
Definition score_tensor (rows : list (list float)) : tensor :=
  Tensor [length rows; length (default [] (head rows))] (Floats (concat rows)).

(** ** Counts, for the statements

    [tally index src c] adds the entries of [src] that stand where [index]
    holds [c]: what a scatter-add leaves in cell [c] of a vector of
    zeros.  [vec f k] is the float vector of the whole numbers
    [f 0 .. f (k - 1)], [sumZ f k] their sum. *)

Definition tally (index src : list Z) (c : Z) : Z :=
  tsum (zip_with (fun i x => if decide (i = c) then x else 0) index src).

Definition vec (f : Z -> Z) (k : nat) : list float :=
  (fun c => Zfloat (f (Z.of_nat c))) <$> seq 0 k.

Definition sumZ (f : Z -> Z) (k : nat) : Z :=
  tsum ((fun c => f (Z.of_nat c)) <$> seq 0 k).

(** The labels of a tensor that lie below [n]. *)
Definition below (n : Z) (labels : list Z) : list bool := (fun l => l <? n) <$> labels.

(** [(pred == target)] as whole numbers, position by position. *)
Definition hits (pred target : list Z) : list Z :=
  zip_with (fun p t => Z.b2z (p =? t)) pred target.

(** The cells that the scatter-adds of the 'none' branch fill for class
    [c], as whole numbers. *)
Definition none_counts (pred target : list Z) (c : Z) : stats Z :=
  let tp := tally pred (hits pred target) c in
  let fp := tally pred ((fun x => 1 - x) <$> hits pred target) c in
  let fn := tally target ((fun x => 1 - x) <$> hits pred target) c in
  let tn := Z.of_nat (length pred) - (tp + fp + fn) in
  let sup := tally target ((fun _ => 1) <$> hits pred target) c in
  Stats tp fp tn fn sup.

(** The five vectors of the 'none' branch, cut to [num_classes] cells. *)
Definition none_vectors (pred target : list Z) (num_classes : Z) : stats (list float) :=
  let cells (f : stats Z -> Z) :=
    vec (fun c => f (none_counts pred target c)) (Z.to_nat num_classes) in
  Stats (cells s_tp) (cells s_fp) (cells s_tn) (cells s_fn) (cells s_sup).

(** Every label is a cell of a vector of [k] cells. *)
Definition in_cells (k : Z) (labels : list Z) : Prop :=
  Forall (fun i => 0 <= i < k) labels.


(** The sum over the positions of two label lists of a whole number taken
    from the two labels of the position. *)
Definition pairsum (F : Z -> Z -> Z) (P T : list Z) : Z := tsum (zip_with F P T).

(** The elements whose prediction or target is at or above [n], the ones
    that the clamping sends to the overflow class. *)
Definition overflow (n : Z) (P T : list Z) : Z :=
  count (zip_with (fun p t => (n <=? p) || (n <=? t)) P T).


(** A float32 holds every whole number up to 2^24 exactly, and not every
    one above: within this bound the float32 arithmetic on counts is the
    exact one. *)
Definition float32_exact (z : Z) : Prop := Z.abs z <= 2 ^ 24.

(** * Properties *)

(** ** Counting with masks *)

Lemma count_cons (b : bool) (m : list bool) : count (b :: m) = Z.b2z b + count m.
Proof. reflexivity. Qed.

Lemma count_nonneg (m : list bool) : 0 <= count m.
Proof.
  induction m as [|b m IH]; [done|].
  rewrite count_cons. destruct b; simpl; lia.
Qed.

Lemma count_le_length (m : list bool) : count m <= Z.of_nat (length m).
Proof.
  induction m as [|b m IH]; [done|].
  rewrite count_cons, length_cons. destruct b; simpl; lia.
Qed.

Lemma count_partition (a b : list bool) :
  length a = length b ->
  count (mask_mul a b) + count (mask_mul a (negb <$> b))
  + count (mask_mul (negb <$> a) (negb <$> b)) + count (mask_mul (negb <$> a) b)
  = Z.of_nat (length b).
Proof.
  revert b. induction a as [|x a IH]; intros [|y b] Hlen; try done.
  injection Hlen as Hlen. specialize (IH b Hlen).
  unfold mask_mul in *. cbn [fmap list_fmap zip_with].
  rewrite !count_cons, length_cons. destruct x, y; simpl; lia.
Qed.

Lemma count_support (a b : list bool) :
  length a = length b ->
  count (mask_mul a b) + count (mask_mul (negb <$> a) b) = count b.
Proof.
  revert b. induction a as [|x a IH]; intros [|y b] Hlen; try done.
  injection Hlen as Hlen. specialize (IH b Hlen).
  unfold mask_mul in *. cbn [fmap list_fmap zip_with].
  rewrite !count_cons. destruct x, y; simpl; lia.
Qed.

Lemma length_eq_scalar (t : tensor) (c : Z) : length (eq_scalar t c) = nelement t.
Proof. unfold eq_scalar, nelement. destruct (data t); apply length_fmap. Qed.

Lemma same_shape_nelement (a b : tensor) : same_shape a b -> nelement a = nelement b.
Proof. intros (Ha & Hb & Hs). unfold well_formed in *. congruence. Qed.

Section StatScores.

Variable to_categorical : tensor -> Z -> tensor.

(** C1.  For [pred] and [target] of one shape, once [pred] has gone through
    the arg-max conversion when it has one dimension more, the five counts
    of [stat_scores] are non-negative, TP + FP + TN + FN is the number of
    elements and TP + FN is the support. *)
Theorem stat_scores_counts (pred target : tensor) (class_index argmax_dim : Z) :
  same_shape (categorical to_categorical pred target argmax_dim) target ->
  let s := stat_scores to_categorical pred target class_index argmax_dim in
  (0 <= s_tp s /\ 0 <= s_fp s /\ 0 <= s_tn s /\ 0 <= s_fn s /\ 0 <= s_sup s)
  /\ s_tp s + s_fp s + s_tn s + s_fn s = Z.of_nat (nelement target)
  /\ s_tp s + s_fn s = s_sup s.
Proof.
  intros Hshape s. apply same_shape_nelement in Hshape.
  assert (Hlen : length (eq_scalar (categorical to_categorical pred target argmax_dim)
                           class_index)
                 = length (eq_scalar target class_index))
    by (rewrite !length_eq_scalar; exact Hshape).
  subst s. unfold stat_scores, ne_scalar. cbn [s_tp s_fp s_tn s_fn s_sup].
  repeat split; try apply count_nonneg.
  - rewrite (count_partition _ _ Hlen). by rewrite length_eq_scalar.
  - apply (count_support _ _ Hlen).
Qed.

End StatScores.

(** ** Runs of the monad *)

Lemma returns_ret {A} (a b : A) : returns (mret a) b <-> a = b.
Proof. unfold returns; simpl. split; congruence. Qed.

Lemma raises_ret {A} (a : A) (e : exn) : ~ raises (mret a) e.
Proof. unfold raises; simpl. congruence. Qed.

Lemma raises_raise {A} (e e' : exn) : raises (raise (A := A) e) e' <-> e = e'.
Proof. unfold raises; simpl. split; congruence. Qed.

Lemma returns_raise {A} (e : exn) (a : A) : ~ returns (raise e) a.
Proof. unfold returns; simpl. congruence. Qed.

Lemma returns_bind {A B} (m : M A) (k : A -> M B) (b : B) :
  returns (m ≫= k) b <-> exists a, returns m a /\ returns (k a) b.
Proof.
  unfold returns, mbind, M_bind. destruct m as [[e|a] w]; simpl.
  - split; [congruence|]. intros (a & Ha & _). congruence.
  - destruct (k a) as [r w'] eqn:Hk; simpl. split.
    + intros ->. exists a. by rewrite Hk.
    + intros (a' & Ha & Hb). injection Ha as <-. by rewrite Hk in Hb.
Qed.

Lemma raises_bind {A B} (m : M A) (k : A -> M B) (e : exn) :
  raises (m ≫= k) e <-> raises m e \/ exists a, returns m a /\ raises (k a) e.
Proof.
  unfold raises, returns, mbind, M_bind. destruct m as [[e'|a] w]; simpl.
  - split; [intros [= ->]; by left|]. intros [[= ->]|(a & Ha & _)]; [done|discriminate].
  - destruct (k a) as [r w'] eqn:Hk; simpl. split.
    + intros ->. right. exists a. by rewrite Hk.
    + intros [H|(a' & Ha & Hb)]; [congruence|].
      injection Ha as <-. by rewrite Hk in Hb.
Qed.

Lemma bind_warn {B} (msg : string) (c : category) (k : unit -> M B) :
  rank_zero_warn msg c ≫= k = ((k tt).1, Warning msg c :: (k tt).2).
Proof. unfold mbind, M_bind, rank_zero_warn. by destruct (k tt). Qed.







Section MultiClass.

Variable to_categorical : tensor -> Z -> tensor.
Variable get_num_classes : tensor -> tensor -> option Z -> Z.

Local Abbreviation smc := (stat_scores_multiple_classes to_categorical get_num_classes).
Local Abbreviation prep := (prepare to_categorical get_num_classes).

Lemma not_possible_eqb (reduction : string) :
  reduction ∉ possible_reductions ->
  (reduction =? "none")%string = false
  /\ (reduction =? "sum")%string = false
  /\ (reduction =? "elementwise_mean")%string = false.
Proof.
  intros H. repeat split; apply String.eqb_neq; intros ->; apply H;
    unfold possible_reductions; rewrite !elem_of_cons; tauto.
Qed.



End MultiClass.

(** ** Whole numbers as floats *)

Lemma fadd_Zfloat (a b : Z) : fadd (Zfloat a) (Zfloat b) = Zfloat (a + b).
Proof.
  unfold fadd, Zfloat, inject_Z, Qplus. simpl. by rewrite !Z.mul_1_r.
Qed.

Lemma fsub_Zfloat (a b : Z) : fsub (Zfloat a) (Zfloat b) = Zfloat (a - b).
Proof.
  unfold fsub, fneg, Zfloat, inject_Z. simpl. unfold Qplus. simpl.
  by rewrite !Z.mul_1_r.
Qed.

Lemma Zfloat_inj (a b : Z) : Zfloat a = Zfloat b -> a = b.
Proof. unfold Zfloat, inject_Z. congruence. Qed.

Lemma length_vec (f : Z -> Z) (k : nat) : length (vec f k) = k.
Proof. unfold vec. by rewrite length_fmap, length_seq. Qed.

Lemma lookup_vec (f : Z -> Z) (k c : nat) :
  (c < k)%nat -> vec f k !! c = Some (Zfloat (f (Z.of_nat c))).
Proof.
  intros Hc. unfold vec. by rewrite list_lookup_fmap, lookup_seq_lt.
Qed.

Lemma lookup_vec_ge (f : Z -> Z) (k c : nat) : (k <= c)%nat -> vec f k !! c = None.
Proof.
  intros Hc. unfold vec. by rewrite list_lookup_fmap, lookup_seq_ge.
Qed.

Lemma vec_ext (f g : Z -> Z) (k : nat) :
  (forall c, 0 <= c < Z.of_nat k -> f c = g c) -> vec f k = vec g k.
Proof.
  intros Hfg. unfold vec. apply list_fmap_ext. intros i c Hc.
  apply lookup_seq in Hc as [-> Hlt]. rewrite Hfg; [done|lia].
Qed.

Lemma zeros_vec (k : nat) : replicate k fzero = vec (fun _ => 0) k.
Proof.
  apply list_eq. intros c. destruct (decide (c < k)%nat).
  - by rewrite lookup_replicate_2, lookup_vec.
  - rewrite lookup_vec_ge by lia. apply lookup_replicate_None. lia.
Qed.

Lemma vec_add (f g : Z -> Z) (k : nat) :
  zip_with fadd (vec f k) (vec g k) = vec (fun c => f c + g c) k.
Proof.
  unfold vec. rewrite zip_with_fmap_l, zip_with_fmap_r, zip_with_diag.
  apply list_fmap_ext. intros. apply fadd_Zfloat.
Qed.

Lemma vec_rsub (n : Z) (f : Z -> Z) (k : nat) :
  fsub (Zfloat n) <$> vec f k = vec (fun c => n - f c) k.
Proof.
  unfold vec. rewrite <- list_fmap_compose.
  apply list_fmap_ext. intros. apply fsub_Zfloat.
Qed.

Lemma take_vec (f : Z -> Z) (j k : nat) : (j <= k)%nat -> take j (vec f k) = vec f j.
Proof.
  intros Hjk. unfold vec. rewrite <- fmap_take, take_seq. by rewrite Nat.min_l.
Qed.

Lemma slice_to_vec (f : Z -> Z) (n : Z) :
  -1 <= n -> slice_to (vec f (Z.to_nat (n + 1))) n = vec f (Z.to_nat n).
Proof.
  intros Hn. unfold slice_to. case_decide.
  - apply take_vec. lia.
  - rewrite length_vec. replace n with (-1) by lia. reflexivity.
Qed.

Lemma fsum_vec (f : Z -> Z) (k : nat) : fsum (vec f k) = Zfloat (sumZ f k).
Proof.
  unfold vec, sumZ. generalize (seq 0 k). intros l.
  induction l as [|c l IH]; [done|].
  rewrite !fmap_cons. unfold fsum, tsum in *. cbn [foldr].
  rewrite IH. apply fadd_Zfloat.
Qed.

(** ** Scatter-add *)

Lemma tally_cons (i x : Z) (index src : list Z) (c : Z) :
  tally (i :: index) (x :: src) c
  = (if decide (i = c) then x else 0) + tally index src c.
Proof. reflexivity. Qed.

Lemma tally_nil_l (src : list Z) (c : Z) : tally [] src c = 0.
Proof. reflexivity. Qed.

Lemma alter_vec (f : Z -> Z) (k : nat) (i x : Z) :
  0 <= i < Z.of_nat k ->
  alter (fun v => fadd v (Zfloat x)) (Z.to_nat i) (vec f k)
  = vec (fun c => f c + if decide (i = c) then x else 0) k.
Proof.
  intros Hi. apply list_eq. intros c. destruct (decide (c < k)%nat) as [Hc|Hc].
  - rewrite (lookup_vec _ _ _ Hc). destruct (decide (Z.to_nat i = c)) as [<-|Hne].
    + rewrite list_lookup_alter_eq, (lookup_vec _ _ _ Hc).
      cbn [fmap option_fmap option_map].
      rewrite fadd_Zfloat, Z2Nat.id by lia. by rewrite decide_True.
    + rewrite list_lookup_alter_ne, (lookup_vec _ _ _ Hc) by done.
      rewrite decide_False by lia. by rewrite Z.add_0_r.
  - rewrite (lookup_vec_ge _ k c) by lia.
    apply lookup_ge_None. rewrite length_alter, length_vec. lia.
Qed.

Lemma scatter_loop_vec (f : Z -> Z) (k : nat) (index xs : list Z) :
  Forall (fun i => 0 <= i < Z.of_nat k) index ->
  (length index <= length xs)%nat ->
  scatter_loop (vec f k) index (Zfloat <$> xs)
  = mret (vec (fun c => f c + tally index xs c) k).
Proof.
  revert f xs. induction index as [|i index IH]; intros f xs Hin Hlen.
  - simpl. f_equal. apply vec_ext. intros c _. rewrite tally_nil_l. lia.
  - destruct xs as [|x xs]; [simpl in Hlen; lia|].
    apply Forall_cons in Hin as [Hi Hin]. rewrite fmap_cons. cbn [scatter_loop].
    rewrite length_vec, decide_True by done.
    rewrite alter_vec by done. rewrite IH; [|done|simpl in Hlen; lia].
    f_equal. apply vec_ext. intros c _. rewrite tally_cons. lia.
Qed.

Lemma scatter_loop_in_range (self : list float) (index : list Z) (src r : list float) :
  returns (scatter_loop self index src) r ->
  (length index <= length src)%nat ->
  Forall (fun i => 0 <= i < Z.of_nat (length self)) index.
Proof.
  revert self src. induction index as [|i index IH]; intros self src Hr Hlen; [done|].
  destruct src as [|x src]; [simpl in Hlen; lia|].
  cbn [scatter_loop] in Hr. case_decide as Hi; [|by apply returns_raise in Hr].
  constructor; [done|]. apply IH in Hr; [|simpl in Hlen; lia].
  by rewrite length_alter in Hr.
Qed.

(** A scatter-add into a vector of whole numbers returns exactly when every
    index is a cell of the vector, and then adds the tallies. *)
Lemma scatter_add_vec (f : Z -> Z) (k : nat) (index xs : list Z) (r : list float) :
  length index = length xs ->
  returns (scatter_add (vec f k) index (Zfloat <$> xs)) r ->
  Forall (fun i => 0 <= i < Z.of_nat k) index
  /\ r = vec (fun c => f c + tally index xs c) k.
Proof.
  intros Hlen Hr. unfold scatter_add in Hr.
  rewrite length_fmap, decide_False in Hr by lia.
  assert (Hin : Forall (fun i => 0 <= i < Z.of_nat k) index).
  { apply scatter_loop_in_range in Hr; [|rewrite length_fmap; lia].
    by rewrite length_vec in Hr. }
  split; [done|]. rewrite scatter_loop_vec in Hr by (done || lia).
  symmetry. by apply returns_ret.
Qed.

Lemma scatter_add_vec_returns (f : Z -> Z) (k : nat) (index xs : list Z) :
  length index = length xs ->
  Forall (fun i => 0 <= i < Z.of_nat k) index ->
  scatter_add (vec f k) index (Zfloat <$> xs)
  = mret (vec (fun c => f c + tally index xs c) k).
Proof.
  intros Hlen Hin. unfold scatter_add.
  rewrite length_fmap, decide_False by lia.
  apply scatter_loop_vec; [done|lia].
Qed.

(** ** The 'none' branch *)

Lemma bind_ret {A B} (a : A) (k : A -> M B) : mret a ≫= k = k a.
Proof. unfold mbind, M_bind, mret, M_ret. by destruct (k a). Qed.

Lemma length_hits (P T : list Z) : length P = length T -> length (hits P T) = length P.
Proof. intros H. unfold hits. rewrite length_zip_with. lia. Qed.

Lemma match_true_hits (P T : list Z) :
  zip_with (fun p t => bfloat (p =? t)) P T = Zfloat <$> hits P T.
Proof.
  revert T. induction P as [|p P IH]; intros [|t T]; try done.
  unfold hits in *. cbn [zip_with fmap list_fmap]. by rewrite IH.
Qed.

Lemma match_false_hits (h : list Z) :
  fsub fone <$> (Zfloat <$> h) = Zfloat <$> ((fun x => 1 - x) <$> h).
Proof.
  rewrite <- !list_fmap_compose. apply list_fmap_ext. intros. apply fsub_Zfloat.
Qed.

Lemma ones_hits (h : list Z) :
  (fun _ => fone) <$> (Zfloat <$> h) = Zfloat <$> ((fun _ => 1) <$> h).
Proof. by rewrite <- !list_fmap_compose. Qed.

Lemma length_flat_long (t : tensor) : length (flat_long t) = nelement t.
Proof. unfold flat_long, nelement. destruct (data t); by rewrite ?length_fmap. Qed.

Lemma nelement_clamp_max (t : tensor) (m : Z) : nelement (clamp_max t m) = nelement t.
Proof. unfold clamp_max, nelement. simpl. destruct (data t); by rewrite ?length_fmap. Qed.

Lemma in_cells_nat (k : Z) (labels : list Z) :
  in_cells k labels -> Forall (fun i => 0 <= i < Z.of_nat (Z.to_nat k)) labels.
Proof. intros H. eapply Forall_impl; [exact H|]. simpl. lia. Qed.

Lemma nat_in_cells (k : Z) (labels : list Z) :
  0 <= k -> Forall (fun i => 0 <= i < Z.of_nat (Z.to_nat k)) labels -> in_cells k labels.
Proof. intros Hk H. eapply Forall_impl; [exact H|]. simpl. lia. Qed.

(** With every label a cell of the vectors, the 'none' branch returns the
    vectors of [none_counts]. *)
Lemma stats_none_in_cells (p t : tensor) (nc : Z) :
  nelement p = nelement t -> -1 <= nc ->
  in_cells (nc + 1) (flat_long p) -> in_cells (nc + 1) (flat_long t) ->
  stats_none p t nc = mret (none_vectors (flat_long p) (flat_long t) nc).
Proof.
  intros Hn Hnc HP HT. rewrite <- !length_flat_long in Hn.
  apply in_cells_nat in HP, HT.
  pose proof (length_hits _ _ Hn) as Hh.
  unfold stats_none, zeros. rewrite decide_False by lia. rewrite !bind_ret.
  rewrite zeros_vec, match_true_hits, match_false_hits, ones_hits.
  rewrite !scatter_add_vec_returns
    by first [assumption | rewrite ?length_fmap; congruence].
  repeat (rewrite bind_ret; cbv beta).
  rewrite !vec_add, vec_rsub, !slice_to_vec by done.
  reflexivity.
Qed.

(** The 'none' branch returns only when there is room for the vectors and
    every label is one of their cells. *)
Lemma stats_none_returns (p t : tensor) (nc : Z) (s : stats (list float)) :
  nelement p = nelement t ->
  returns (stats_none p t nc) s ->
  -1 <= nc /\ in_cells (nc + 1) (flat_long p) /\ in_cells (nc + 1) (flat_long t).
Proof.
  intros Hn Hr. rewrite <- !length_flat_long in Hn.
  pose proof (length_hits _ _ Hn) as Hh.
  unfold stats_none, zeros in Hr. case_decide as Hnc; [done|].
  repeat (rewrite bind_ret in Hr; cbv beta in Hr).
  rewrite zeros_vec, match_true_hits, match_false_hits, ones_hits in Hr.
  apply returns_bind in Hr as (tps & Htps & Hr).
  apply returns_bind in Hr as (fps & _ & Hr).
  apply returns_bind in Hr as (fns & Hfns & _).
  apply scatter_add_vec in Htps as [HP _]; [|congruence].
  apply scatter_add_vec in Hfns as [HT _]; [|rewrite length_fmap; congruence].
  split; [lia|]. split; apply nat_in_cells; (lia || done).
Qed.

(** ** Sums over the classes *)

Lemma tsum_app (l l' : list Z) : tsum (l ++ l') = tsum l + tsum l'.
Proof. induction l as [|x l IH]; simpl; [done|]. unfold tsum in *. simpl. lia. Qed.

Lemma sumZ_S (f : Z -> Z) (k : nat) : sumZ f (S k) = sumZ f k + f (Z.of_nat k).
Proof.
  unfold sumZ. rewrite seq_S, fmap_app, tsum_app. simpl. unfold tsum. simpl. lia.
Qed.

Lemma sumZ_add (f g : Z -> Z) (k : nat) :
  sumZ (fun c => f c + g c) k = sumZ f k + sumZ g k.
Proof. induction k as [|k IH]; [done|]. rewrite !sumZ_S. lia. Qed.

Lemma sumZ_ext (f g : Z -> Z) (k : nat) :
  (forall c, 0 <= c < Z.of_nat k -> f c = g c) -> sumZ f k = sumZ g k.
Proof.
  intros H. induction k as [|k IH]; [done|]. rewrite !sumZ_S.
  rewrite IH by (intros; apply H; lia). rewrite H by lia. done.
Qed.

(** One label is counted by one class, its own, if that class is there. *)
Lemma sumZ_indicator (l : Z) (k : nat) :
  sumZ (fun c => Z.b2z (l =? c)) k = Z.b2z ((0 <=? l) && (l <? Z.of_nat k)).
Proof.
  induction k as [|k IH].
  - change (sumZ _ 0) with 0.
    destruct (Z.leb_spec 0 l), (Z.ltb_spec l (Z.of_nat 0)); simpl; lia.
  - rewrite sumZ_S, IH.
    destruct (Z.leb_spec 0 l), (Z.ltb_spec l (Z.of_nat k)),
      (Z.eqb_spec l (Z.of_nat k)), (Z.ltb_spec l (Z.of_nat (S k))); simpl; lia.
Qed.

Lemma tally_ones (T h : list Z) (c : Z) :
  length h = length T ->
  tally T ((fun _ => 1) <$> h) c = count ((fun l => l =? c) <$> T).
Proof.
  revert h. induction T as [|l T IH]; intros [|x h] Hlen; try done.
  injection Hlen as Hlen. rewrite !fmap_cons, tally_cons, count_cons, IH by done.
  case_decide; [subst; by rewrite Z.eqb_refl|].
  by rewrite (proj2 (Z.eqb_neq l c)).
Qed.

Lemma sumZ_count (T : list Z) (k : nat) :
  sumZ (fun c => count ((fun l => l =? c) <$> T)) k
  = count ((fun l => (0 <=? l) && (l <? Z.of_nat k)) <$> T).
Proof.
  induction T as [|l T IH].
  - simpl. induction k as [|k IHk]; [done|]. rewrite sumZ_S, IHk. done.
  - rewrite fmap_cons, count_cons, <- IH, <- sumZ_indicator, <- sumZ_add.
    apply sumZ_ext. intros c _. by rewrite fmap_cons, count_cons.
Qed.

Lemma count_below (T : list Z) (n : Z) :
  Forall (fun l => 0 <= l) T ->
  count ((fun l => (0 <=? l) && (l <? Z.of_nat (Z.to_nat n))) <$> T)
  = count (below n T).
Proof.
  unfold below. induction 1 as [|l T Hl _ IH]; [done|].
  rewrite !fmap_cons, !count_cons, IH. f_equal.
  destruct (Z.leb_spec 0 l), (Z.ltb_spec l (Z.of_nat (Z.to_nat n))),
    (Z.ltb_spec l n); simpl; lia.
Qed.

(** The support vector sums to the number of target labels below
    [num_classes]. *)
Lemma fsum_support (P T : list Z) (n : Z) :
  length P = length T -> Forall (fun l => 0 <= l) T ->
  fsum (s_sup (none_vectors P T n)) = Zfloat (count (below n T)).
Proof.
  intros Hlen HT. unfold none_vectors. cbn [s_sup]. rewrite fsum_vec. f_equal.
  rewrite <- count_below by done. rewrite <- sumZ_count.
  apply sumZ_ext. intros c _. unfold none_counts. cbn [s_sup].
  apply tally_ones. by rewrite length_hits.
Qed.

Lemma count_all (m : list bool) :
  Forall (fun b => b = true) m -> count m = Z.of_nat (length m).
Proof.
  induction 1 as [|b m -> _ IH]; [done|]. rewrite count_cons, IH, length_cons. simpl. lia.
Qed.

Lemma lookup_vec_Some (f : Z -> Z) (k c : nat) (x : float) :
  vec f k !! c = Some x -> x = Zfloat (f (Z.of_nat c)).
Proof.
  intros H. destruct (decide (c < k)%nat) as [Hc|Hc].
  - rewrite lookup_vec in H by done. congruence.
  - rewrite lookup_vec_ge in H by lia. done.
Qed.

Section NoneReduction.

Variable to_categorical : tensor -> Z -> tensor.
Variable get_num_classes : tensor -> tensor -> option Z -> Z.

Local Abbreviation smc := (stat_scores_multiple_classes to_categorical get_num_classes).
Local Abbreviation prep := (prepare to_categorical get_num_classes).

Lemma nelement_prepare (pred target : tensor) (num_classes : option Z) (argmax_dim : Z) :
  let r := prep pred target num_classes argmax_dim in
  nelement r.1.1 = nelement (categorical to_categorical pred target argmax_dim)
  /\ nelement r.1.2 = nelement target.
Proof.
  unfold prepare. cbn [fst snd].
  split; case (negb _); by rewrite ?nelement_clamp_max.
Qed.

(** The run of the 'none' reduction is the run of its branch. *)
Lemma smc_none (pred target : tensor) (num_classes : option Z) (argmax_dim : Z)
    (s : stats value) :
  let r := prep pred target num_classes argmax_dim in
  returns (smc pred target num_classes argmax_dim "none") s
  <-> exists s0, returns (stats_none r.1.1 r.1.2 r.2) s0 /\ s = stats_map Vector s0.
Proof.
  intros r. subst r. unfold stat_scores_multiple_classes. rewrite bind_warn.
  destruct (prep pred target num_classes argmax_dim) as [[p t] n].
  unfold returns at 1. cbn [fst snd negb]. rewrite bool_decide_eq_true_2
    by (unfold possible_reductions; rewrite !elem_of_cons; tauto).
  cbn [negb String.eqb Ascii.eqb Bool.eqb].
  change (?m.1 = inr s) with (returns m s). rewrite returns_bind.
  split; intros (s0 & H0 & H1); exists s0; split; try done.
  - symmetry. by apply returns_ret.
  - by apply returns_ret.
Qed.

(** With exact accumulators: for [pred] and [target] of one shape, when
    the 'none' reduction returns, it returns five vectors of [num_classes]
    cells; in every cell [c], tp[c] + fp[c] + fn[c] + tn[c] is the number
    of elements; and the support vector sums to the number of target labels
    (as clamped by the function) that lie below [num_classes], which is the
    number of elements when no target label reaches [num_classes]. *)
Lemma none_counts_exact (pred target : tensor) (num_classes : option Z)
    (argmax_dim : Z) (s : stats value) :
  let r := prep pred target num_classes argmax_dim in
  let n := r.2 in
  let labels := flat_long r.1.2 in
  let total := Zfloat (Z.of_nat (nelement target)) in
  same_shape (categorical to_categorical pred target argmax_dim) target ->
  returns (smc pred target num_classes argmax_dim "none") s ->
  exists tps fps tns fns sups : list float,
    s = Stats (Vector tps) (Vector fps) (Vector tns) (Vector fns) (Vector sups)
    /\ (length tps = Z.to_nat n /\ length fps = Z.to_nat n
        /\ length tns = Z.to_nat n /\ length fns = Z.to_nat n
        /\ length sups = Z.to_nat n)
    /\ (forall (c : nat) (tp fp fn tn : float),
          tps !! c = Some tp -> fps !! c = Some fp ->
          fns !! c = Some fn -> tns !! c = Some tn ->
          fadd (fadd (fadd tp fp) fn) tn = total)
    /\ fsum sups = Zfloat (count (below n labels))
    /\ (Forall (fun l => l < n) labels -> fsum sups = total).
Proof.
  intros r n labels total Hshape Hr.
  apply smc_none in Hr as (s0 & Hs0 & ->). fold r in Hs0. fold n in Hs0.
  destruct (nelement_prepare pred target num_classes argmax_dim) as [Hp Ht].
  fold r in Hp, Ht. apply same_shape_nelement in Hshape.
  assert (Hn : nelement r.1.1 = nelement r.1.2) by congruence.
  destruct (stats_none_returns _ _ _ _ Hn Hs0) as (Hnc & HP & HT).
  rewrite stats_none_in_cells in Hs0 by done. apply returns_ret in Hs0 as <-.
  assert (Hlen : length (flat_long r.1.1) = length labels)
    by (unfold labels; by rewrite !length_flat_long).
  assert (Hsup : fsum (s_sup (none_vectors (flat_long r.1.1) labels n))
                 = Zfloat (count (below n labels))).
  { apply fsum_support; [done|]. eapply Forall_impl; [exact HT|]. simpl. lia. }
  unfold none_vectors, stats_map in *. cbn [s_tp s_fp s_tn s_fn s_sup] in *.
  eexists _, _, _, _, _. split; [reflexivity|].
  split; [by rewrite !length_vec|]. split_and!.
  - intros c tp fp fn tn H1 H2 H3 H4.
    apply lookup_vec_Some in H1, H2, H3, H4. subst tp fp fn tn.
    rewrite !fadd_Zfloat. unfold total. f_equal. cbn [none_counts s_tp s_fp s_tn s_fn].
    rewrite length_flat_long. lia.
  - exact Hsup.
  - intros Hall. etrans; [exact Hsup|]. unfold total. f_equal.
    rewrite count_all.
    + unfold below, labels. by rewrite length_fmap, length_flat_long, Ht.
    + unfold below. apply Forall_fmap. eapply Forall_impl; [exact Hall|].
      simpl. intros l Hl. by apply Z.ltb_lt.
Qed.

End NoneReduction.

(** ** The dice loop *)

Lemma fadd_fzero_l (x : float) : fadd fzero x = x.
Proof.
  destruct x as [[n d]| | |]; try done.
  unfold fadd, fzero, Zfloat, inject_Z, Qplus. simpl. by rewrite Z.mul_1_r.
Qed.

Lemma feqb_Zfloat (a b : Z) : feqb (Zfloat a) (Zfloat b) = (a =? b).
Proof.
  unfold feqb, Zfloat. destruct (Z.eqb_spec a b) as [->|Hne].
  - by apply Qeq_bool_iff.
  - apply not_true_iff_false. rewrite Qeq_bool_iff. unfold Qeq. simpl. lia.
Qed.

(** After [m] turns of a loop that adds [g i] to cell [i - bg] for
    [i = bg, bg + 1, ...], the first [m] cells hold the values of [g] and
    the other cells are as they were. *)
Lemma scores_loop (g : Z -> float) (bg : Z) (len m : nat) :
  (m <= len)%nat ->
  foldl (fun scores i => alter (fun v => fadd v (g i)) (Z.to_nat (i - bg)) scores)
    (replicate len fzero) (seqZ bg (Z.of_nat m))
  = (g <$> seqZ bg (Z.of_nat m)) ++ replicate (len - m) fzero.
Proof.
  induction m as [|m IH]; intros Hm.
  - simpl. by rewrite Nat.sub_0_r.
  - rewrite seqZ_S, foldl_snoc, IH, fmap_app by lia.
    replace (Z.to_nat (bg + Z.of_nat m - bg))
      with (length (g <$> seqZ bg (Z.of_nat m)) + 0)%nat
      by (rewrite length_fmap, length_seqZ; lia).
    rewrite alter_app_r. replace (len - m)%nat with (S (len - S m)) by lia.
    cbn [replicate alter list_alter]. rewrite fadd_fzero_l.
    by rewrite <- app_assoc.
Qed.

Lemma fdiv_Zfloat (a d : Z) :
  d <> 0 -> fdiv (Zfloat a) (Zfloat d) = Fin (inject_Z a / inject_Z d).
Proof.
  intros Hd. unfold fdiv, Zfloat.
  replace (Qeq_bool (inject_Z d) 0) with false; [done|].
  symmetry. apply not_true_iff_false. rewrite Qeq_bool_iff. unfold Qeq. simpl. lia.
Qed.


Section Dice.

Variable to_categorical : tensor -> Z -> tensor.

(** The loop of [dice_score] returns the scores of the classes of its
    range when [pred] has a second axis and the range is not negative. *)
Lemma dice_scores_classes (pred target : tensor) (bg : bool)
    (nan_score no_fg_score : float) (n : nat) :
  shape pred !! 1%nat = Some n -> 1 - Z.b2z bg <= Z.of_nat n ->
  dice_scores to_categorical pred target bg nan_score no_fg_score
  = mret (dice_class to_categorical pred target nan_score no_fg_score
            <$> seqZ (1 - Z.b2z bg) (Z.of_nat n - (1 - Z.b2z bg))).
Proof.
  intros Hs Hn. unfold dice_scores, shape_at. rewrite Hs, bind_ret.
  unfold zeros. rewrite decide_False by lia. rewrite bind_ret. f_equal.
  set (first := 1 - Z.b2z bg) in *.
  set (len := Z.to_nat (Z.of_nat n - first)).
  replace (Z.of_nat n - first) with (Z.of_nat len) by lia.
  etrans; [apply (scores_loop
                    (dice_class to_categorical pred target nan_score no_fg_score)
                    first len len); lia|].
  rewrite Nat.sub_diag. apply app_nil_r.
Qed.

Lemma dice_scores_range (pred target : tensor) (bg : bool)
    (nan_score no_fg_score : float) (scores : list float) :
  returns (dice_scores to_categorical pred target bg nan_score no_fg_score) scores ->
  exists n : nat, shape pred !! 1%nat = Some n /\ 1 - Z.b2z bg <= Z.of_nat n.
Proof.
  unfold dice_scores, shape_at. destruct (shape pred !! 1%nat) as [n|]; [|done].
  rewrite bind_ret. unfold zeros. case_decide; [done|]. intros _. exists n. split; [done|lia].
Qed.



End Dice.

(** ** Normalisation of a confusion matrix *)

Lemma isnan_nan_to_zero (x : float) : isnan (nan_to_zero x) = false.
Proof. unfold nan_to_zero. by destruct x. Qed.

Lemma nan_free_row (row : list float) :
  length (filter (fun x => isnan x = true) row) = 0%nat -> nan_to_zero <$> row = row.
Proof.
  induction row as [|x row IH]; [done|]. rewrite filter_cons.
  case_decide as Hx; [done|]. intros H. rewrite fmap_cons, IH by done.
  unfold nan_to_zero. by destruct (isnan x).
Qed.

Lemma nan_free_rows (rows : list (list float)) :
  length (filter (fun x => isnan x = true) (concat rows)) = 0%nat ->
  fmap (M := list) nan_to_zero <$> rows = rows.
Proof.
  induction rows as [|row rows IH]; [done|].
  cbn [concat]. rewrite filter_app, length_app. intros H.
  rewrite fmap_cons, IH, nan_free_row by lia. done.
Qed.

(** C9, amended.  [_confmat_normalize] returns the matrix of the entries
    divided by the sum of their row, with 0 in the place of every NaN of
    these quotients, so that no entry returned is NaN.  It emits one
    advisory, which states the number of NaN that were replaced, when that
    number is not zero, and no advisory when it is zero. *)
Theorem confmat_normalize_outcome (cm : list (list float)) :
  let rows := (fun row => (fun x => fdiv x (fsum row)) <$> row) <$> cm in
  let k := length (filter (fun x => isnan x = true) (concat rows)) in
  let result := fmap (M := list) nan_to_zero <$> rows in
  returns (_confmat_normalize cm) result
  /\ Forall (Forall (fun x => isnan x = false)) result
  /\ warnings (_confmat_normalize cm)
     = (if decide (k = 0%nat) then []
        else [Warning
                (string_of_nat k
                 +:+ " nan values found in confusion matrix have been replaced with zeros.")
                UserWarning]).
Proof.
  intros rows k result. split_and!.
  - unfold _confmat_normalize. fold rows. fold k. case_decide as Hk.
    + by rewrite bind_warn.
    + unfold result. rewrite nan_free_rows by (fold k; lia). done.
  - unfold result. apply Forall_fmap, Forall_true. intros row.
    apply Forall_fmap, Forall_true. intros x. apply isnan_nan_to_zero.
  - unfold _confmat_normalize. fold rows. fold k.
    destruct (decide (k = 0%nat)) as [Hk|Hk].
    + by rewrite decide_False by lia.
    + rewrite decide_True by done. by rewrite bind_warn.
Qed.

(** ** Precision and recall *)

Lemma state_keys (tps fps fns sups : value) (key : string) :
  is_Some ((<["tps" := tps]> (<["fps" := fps]> (<["fns" := fns]>
              (<["sups" := sups]> (∅ : gmap string value))))) !! key)
  <-> key ∈ ["tps"; "fps"; "fns"; "sups"]%string.
Proof.
  rewrite !lookup_insert_is_Some, lookup_empty, !elem_of_cons, elem_of_nil.
  pose proof (is_Some_None (A := value)).
  destruct (decide ("tps"%string = key)), (decide ("fps"%string = key)),
    (decide ("fns"%string = key)), (decide ("sups"%string = key));
    intuition congruence.
Qed.

Section PrecisionRecall.

Variable to_categorical : tensor -> Z -> tensor.
Variable get_num_classes : tensor -> tensor -> option Z -> Z.
Variable class_reduce : value -> value -> value -> string -> M value.

Local Abbreviation smc := (stat_scores_multiple_classes to_categorical get_num_classes).
Local Abbreviation pr := (precision_recall to_categorical get_num_classes class_reduce).

(** [precision_recall] returns when the statistics and the two reductions
    return, and then what its two flags select. *)
Lemma precision_recall_returns (pred target : tensor) (num_classes : option Z)
    (class_reduction : string) (return_support return_state : bool) (r : pr_result) :
  returns (pr pred target num_classes class_reduction return_support return_state) r
  <-> exists (tps fps tns fns sups precision recall : value),
        returns (smc pred target num_classes 1 "none") (Stats tps fps tns fns sups)
        /\ returns (class_reduce tps (value_add tps fps) sups class_reduction) precision
        /\ returns (class_reduce tps (value_add tps fns) sups class_reduction) recall
        /\ r = (if return_state
                then State (<["tps" := tps]> (<["fps" := fps]> (<["fns" := fns]>
                              (<["sups" := sups]> ∅))))
                else if return_support
                then PrecisionRecallSupport precision recall sups
                else PrecisionRecall precision recall).
Proof.
  unfold precision_recall. rewrite bind_warn. unfold returns at 1. cbn [fst].
  change (?m.1 = inr r) with (returns m r). rewrite returns_bind. split.
  - intros ([tps fps tns fns sups] & Hs & Hr).
    apply returns_bind in Hr as (precision & Hp & Hr).
    apply returns_bind in Hr as (recall & Hrc & Hr).
    exists tps, fps, tns, fns, sups, precision, recall. split_and!; try done.
    destruct return_state, return_support; symmetry; by apply returns_ret.
  - intros (tps & fps & tns & fns & sups & precision & recall & Hs & Hp & Hrc & ->).
    exists (Stats tps fps tns fns sups). split; [done|].
    apply returns_bind. exists precision. split; [done|].
    apply returns_bind. exists recall. split; [done|].
    destruct return_state, return_support; by apply returns_ret.
Qed.

(** C10.  With [return_state = True], [precision_recall] does the same
    whatever [return_support] is; what it returns is the dictionary of the
    four vectors of the statistics, whose keys are 'tps', 'fps', 'fns' and
    'sups': neither the pair nor the triple with precision and recall. *)
Theorem return_state_precedence (pred target : tensor) (num_classes : option Z)
    (class_reduction : string) (return_support : bool) :
  pr pred target num_classes class_reduction return_support true
  = pr pred target num_classes class_reduction (negb return_support) true
  /\ (forall r : pr_result,
        returns (pr pred target num_classes class_reduction return_support true) r <->
        exists (tps fps tns fns sups precision recall : value),
          returns (smc pred target num_classes 1 "none") (Stats tps fps tns fns sups)
          /\ returns (class_reduce tps (value_add tps fps) sups class_reduction) precision
          /\ returns (class_reduce tps (value_add tps fns) sups class_reduction) recall
          /\ r = State (<["tps" := tps]> (<["fps" := fps]> (<["fns" := fns]>
                          (<["sups" := sups]> ∅)))))
  /\ (forall (r : pr_result),
        returns (pr pred target num_classes class_reduction return_support true) r ->
        exists d : gmap string value,
          r = State d
          /\ forall key, is_Some (d !! key) <-> key ∈ ["tps"; "fps"; "fns"; "sups"]%string).
Proof.
  split_and!.
  - reflexivity.
  - intros r. apply precision_recall_returns.
  - intros r (tps & fps & tns & fns & sups & _ & _ & _ & _ & _ & ->)%precision_recall_returns.
    eexists. split; [reflexivity|]. intros key. apply state_keys.
Qed.

End PrecisionRecall.

(** * The functions on concrete tensors

    The helpers of [torchmetrics.utils] are the ones modelled from their
    contracts. *)

(** [stat_scores] on the example of its documentation:
    [(0, 1, 2, 0, 0)]. *)
Lemma stat_scores_counts_example :
  let s := stat_scores to_categorical_model
             (label_tensor [1; 2; 3]) (label_tensor [0; 2; 3]) 1 1 in
  s = Stats 0 1 2 0 0
  /\ (0 <= s_tp s /\ 0 <= s_fp s /\ 0 <= s_tn s /\ 0 <= s_fn s /\ 0 <= s_sup s)
  /\ s_tp s + s_fp s + s_tn s + s_fn s = 3
  /\ s_tp s + s_fn s = s_sup s.
Proof.
  split; [reflexivity|].
  apply (stat_scores_counts to_categorical_model
           (label_tensor [1; 2; 3]) (label_tensor [0; 2; 3]) 1 1).
  repeat split; reflexivity.
Defined.

(** C3.  On [pred = [0, 1]], [target = [0, 2]] and [num_classes = 2] the
    'sum' reduction returns TN = 3, while the TN vector of the 'none'
    reduction is [[1, 1]], which sums to 2.  The other four totals are the
    sums of their vectors. *)
Theorem sum_true_negatives_differ :
  let pred := label_tensor [0; 1] in
  let target := label_tensor [0; 2] in
  let run := stat_scores_multiple_classes to_categorical_model get_num_classes_model
               pred target (Some 2) 1 in
  let totals := Stats 1 1 3 0 1 in
  let vectors := Stats [1; 0] [0; 1] [1; 1] [0; 0] [1; 0] in
  returns (run "sum") (stats_map (fun x => Scalar (Zfloat x)) totals)
  /\ returns (run "none") (stats_map (fun l => Vector (Zfloat <$> l)) vectors)
  /\ stats_map tsum vectors = Stats 1 1 2 0 1
  /\ fsum (Zfloat <$> s_tn vectors) = Zfloat 2
  /\ Zfloat (s_tn totals) <> fsum (Zfloat <$> s_tn vectors).
Proof.
  split_and!; try (vm_compute; reflexivity). vm_compute. discriminate.
Qed.

(** C6.  For [pred = [0, 1, 2, 3]] and [target = [0, 2, 2, 2]] with the
    'macro' reduction, [precision_recall] returns precision 1/2 and recall
    1/3, the reducer taking the mean of the ratios of the classes, with 0
    for 0/0. *)
Theorem precision_recall_macro_example :
  let pred := label_tensor [0; 1; 2; 3] in
  let target := label_tensor [0; 2; 2; 2] in
  (exists p r : float,
     returns (precision_recall to_categorical_model get_num_classes_model
                class_reduce_model pred target None "macro" false false)
       (PrecisionRecall (Scalar p) (Scalar r))
     /\ feq p (Fin (1 # 2)) /\ feq r (Fin (1 # 3)))
  /\ (forall num denom weights : value,
        class_reduce_model num denom weights "macro"
        = mret (Scalar (fmean (zip_with ratio (elements num) (elements denom)))))
  /\ ratio fzero fzero = fzero.
Proof.
  split_and!; [|reflexivity..].
  exists (Fin (2 # 4)), (Fin (4 # 12)). split_and!; vm_compute; reflexivity.
Qed.

(** C2, as it was stated, fails on [pred = [0, 1]], [target = [0, 2]] and
    [num_classes = 2]: the tensors have one shape and two elements, and
    the support vector returned is [[1, 0]], which sums to 1. *)
Lemma support_sum_counterexample :
  let pred := label_tensor [0; 1] in
  let target := label_tensor [0; 2] in
  same_shape pred target
  /\ returns (stat_scores_multiple_classes to_categorical_model get_num_classes_model
               pred target (Some 2) 1 "none")
       (stats_map (fun l => Vector (Zfloat <$> l))
          (Stats [1; 0] [0; 1] [1; 1] [0; 0] [1; 0]))
  /\ fsum (Zfloat <$> [1; 0]) = Zfloat 1
  /\ ~ feq (fsum (Zfloat <$> [1; 0])) (Zfloat (Z.of_nat (nelement target))).
Proof.
  split_and!; try (vm_compute; reflexivity).
  - repeat split; reflexivity.
  - vm_compute. discriminate.
Qed.

(** C9, as it was stated, fails on the matrix [[[1, 1]]]: the call returns
    [[[1/2, 1/2]]] and emits no advisory. *)
Lemma confmat_normalize_counterexample :
  returns (_confmat_normalize [[fone; fone]]) [[Fin (1 # 2); Fin (1 # 2)]]
  /\ warnings (_confmat_normalize [[fone; fone]]) = []
  /\ length (warnings (_confmat_normalize [[fone; fone]])) <> 1%nat.
Proof. split_and!; [vm_compute; reflexivity..|vm_compute; discriminate]. Qed.

(** The normalisation of a matrix with a row of zeros: two entries are
    replaced, and the advisory says so. *)
Lemma confmat_normalize_example :
  returns (_confmat_normalize [[fone; fone]; [fzero; fzero]])
    [[Fin (1 # 2); Fin (1 # 2)]; [fzero; fzero]]
  /\ warnings (_confmat_normalize [[fone; fone]; [fzero; fzero]])
     = [Warning "2 nan values found in confusion matrix have been replaced with zeros."
          UserWarning].
Proof. split; vm_compute; reflexivity. Qed.


(** [precision_recall] on the example of its documentation, asked for its
    state: the dictionary of the four vectors, with or without
    [return_support]. *)
Lemma return_state_example :
  let pred := label_tensor [0; 1; 2; 3] in
  let target := label_tensor [0; 2; 2; 2] in
  let state : gmap string value :=
    <["tps" := Vector (Zfloat <$> [1; 0; 1; 0])]>
      (<["fps" := Vector (Zfloat <$> [0; 1; 0; 1])]>
         (<["fns" := Vector (Zfloat <$> [0; 0; 2; 0])]>
            (<["sups" := Vector (Zfloat <$> [1; 0; 3; 0])]> ∅))) in
  forall return_support : bool,
    returns (precision_recall to_categorical_model get_num_classes_model
               class_reduce_model pred target None "macro" return_support true)
      (State state).
Proof.
  intros pred target state return_support.
  apply precision_recall_returns.
  eexists _, _, _, _, _, _, _. split_and!; [vm_compute; reflexivity..|reflexivity].
Qed.

(** * Further properties *)

(** ** Sums over the positions of two tensors *)

Lemma pairsum_cons (F : Z -> Z -> Z) (p t : Z) (P T : list Z) :
  pairsum F (p :: P) (t :: T) = F p t + pairsum F P T.
Proof. reflexivity. Qed.

Lemma pairsum_ext (F G : Z -> Z -> Z) (P T : list Z) :
  (forall p t, p ∈ P -> t ∈ T -> F p t = G p t) -> pairsum F P T = pairsum G P T.
Proof.
  revert T. induction P as [|p P IH]; intros [|t T] H; try done.
  rewrite !pairsum_cons, H, IH; [done| |apply list_elem_of_here..].
  intros p' t' Hp Ht. apply H; by apply list_elem_of_further.
Qed.

Lemma pairsum_add (F G : Z -> Z -> Z) (P T : list Z) :
  pairsum (fun p t => F p t + G p t) P T = pairsum F P T + pairsum G P T.
Proof.
  revert T. induction P as [|p P IH]; intros [|t T]; try done.
  rewrite !pairsum_cons, IH. lia.
Qed.

Lemma pairsum_sub (F G : Z -> Z -> Z) (P T : list Z) :
  pairsum (fun p t => F p t - G p t) P T = pairsum F P T - pairsum G P T.
Proof.
  revert T. induction P as [|p P IH]; intros [|t T]; try done.
  rewrite !pairsum_cons, IH. lia.
Qed.

Lemma pairsum_sumZ (F : Z -> Z -> Z -> Z) (P T : list Z) (k : nat) :
  sumZ (fun c => pairsum (F c) P T) k = pairsum (fun p t => sumZ (fun c => F c p t) k) P T.
Proof.
  induction k as [|k IH]; [|rewrite sumZ_S, IH, <- pairsum_add;
                            apply pairsum_ext; intros; by rewrite sumZ_S].
  change (sumZ _ 0) with 0. revert T. induction P as [|p P IHP]; intros [|t T]; try done.
  rewrite pairsum_cons, <- IHP. reflexivity.
Qed.

Lemma pairsum_ones (P T : list Z) :
  length P = length T -> pairsum (fun _ _ => 1) P T = Z.of_nat (length P).
Proof.
  revert T. induction P as [|p P IH]; intros [|t T] Hlen; try done.
  injection Hlen as Hlen. rewrite pairsum_cons, IH, length_cons by done. lia.
Qed.

Lemma count_pairsum (f g : Z -> bool) (P T : list Z) :
  count (mask_mul (f <$> P) (g <$> T)) = pairsum (fun p t => Z.b2z (f p && g t)) P T.
Proof.
  revert T. induction P as [|p P IH]; intros [|t T]; try done.
  rewrite pairsum_cons, <- IH. reflexivity.
Qed.

Lemma count_pairsum_r (g : Z -> bool) (P T : list Z) :
  length P = length T -> count (g <$> T) = pairsum (fun _ t => Z.b2z (g t)) P T.
Proof.
  revert T. induction P as [|p P IH]; intros [|t T] Hlen; try done.
  injection Hlen as Hlen. rewrite pairsum_cons, fmap_cons, count_cons, IH by done. done.
Qed.

Lemma count_zip_pairsum (f : Z -> Z -> bool) (P T : list Z) :
  count (zip_with f P T) = pairsum (fun p t => Z.b2z (f p t)) P T.
Proof.
  revert T. induction P as [|p P IH]; intros [|t T]; try done.
  rewrite pairsum_cons, <- IH. reflexivity.
Qed.

Lemma tally_pairsum_l (h : Z -> Z) (P T : list Z) (c : Z) :
  tally P (h <$> hits P T) c
  = pairsum (fun p t => if decide (p = c) then h (Z.b2z (p =? t)) else 0) P T.
Proof.
  revert T. induction P as [|p P IH]; intros [|t T]; try done.
  rewrite pairsum_cons, <- IH. reflexivity.
Qed.

Lemma tally_pairsum_r (h : Z -> Z) (P T : list Z) (c : Z) :
  tally T (h <$> hits P T) c
  = pairsum (fun p t => if decide (t = c) then h (Z.b2z (p =? t)) else 0) P T.
Proof.
  revert T. induction P as [|p P IH]; intros [|t T]; try reflexivity.
  rewrite pairsum_cons, <- IH. reflexivity.
Qed.

Ltac cases_eqb :=
  repeat match goal with
         | |- context [decide ?P] => destruct (decide P)
         | |- context [?a =? ?b] => destruct (Z.eqb_spec a b)
         | |- context [?a <=? ?b] => destruct (Z.leb_spec a b)
         | |- context [?a <? ?b] => destruct (Z.ltb_spec a b)
         end;
  simpl; try lia.

(** ** The vectors of 'none' and the counts of [stat_scores] *)

(** The cells that the scatter-adds fill for class [c] are the counts of
    the four products of masks and of the mask of the target. *)
Lemma none_counts_masks (P T : list Z) (c : Z) :
  length P = length T ->
  let is_c := fun x => x =? c in
  none_counts P T c
  = Stats (count (mask_mul (is_c <$> P) (is_c <$> T)))
      (count (mask_mul (is_c <$> P) (negb <$> (is_c <$> T))))
      (count (mask_mul (negb <$> (is_c <$> P)) (negb <$> (is_c <$> T))))
      (count (mask_mul (negb <$> (is_c <$> P)) (is_c <$> T)))
      (count (is_c <$> T)).
Proof.
  intros Hlen is_c.
  assert (Htp : tally P (hits P T) c = count (mask_mul (is_c <$> P) (is_c <$> T))).
  { rewrite <- (list_fmap_id (hits P T)), tally_pairsum_l, count_pairsum.
    apply pairsum_ext. intros p t _ _. unfold is_c. cases_eqb. }
  assert (Hfp : tally P ((fun x => 1 - x) <$> hits P T) c
                = count (mask_mul (is_c <$> P) (negb <$> (is_c <$> T)))).
  { rewrite tally_pairsum_l, <- list_fmap_compose, count_pairsum.
    apply pairsum_ext. intros p t _ _. unfold is_c, compose. cases_eqb. }
  assert (Hfn : tally T ((fun x => 1 - x) <$> hits P T) c
                = count (mask_mul (negb <$> (is_c <$> P)) (is_c <$> T))).
  { rewrite tally_pairsum_r, <- list_fmap_compose, count_pairsum.
    apply pairsum_ext. intros p t _ _. unfold is_c, compose. cases_eqb. }
  unfold none_counts. cbv zeta. rewrite Htp, Hfp, Hfn, tally_ones by by rewrite length_hits.
  f_equal. fold is_c.
  pose proof (count_partition (is_c <$> P) (is_c <$> T)) as Hpart.
  rewrite !length_fmap in Hpart. specialize (Hpart Hlen). lia.
Qed.

(** Below the bound, clamping a label does not change whether it is a
    given class. *)
Lemma clamped_is_class (n c : Z) (l : list Z) :
  c < n -> (fun x => x =? c) <$> (Z.min n <$> l) = (fun x => x =? c) <$> l.
Proof.
  intros Hc. rewrite <- list_fmap_compose. apply list_fmap_ext.
  intros _ x _. unfold compose. cases_eqb.
Qed.

Lemma eq_scalar_longs (t : tensor) (l : list Z) (c : Z) :
  data t = Longs l -> eq_scalar t c = (fun x => x =? c) <$> l.
Proof. unfold eq_scalar. by intros ->. Qed.

Lemma flat_long_clamp_max (t : tensor) (l : list Z) (n : Z) :
  data t = Longs l -> flat_long (clamp_max t n) = Z.min n <$> l.
Proof. unfold flat_long, clamp_max. simpl. by intros ->. Qed.

Lemma is_bool_longs (t : tensor) (l : list Z) : data t = Longs l -> is_bool t = false.
Proof. unfold is_bool. by intros ->. Qed.

Lemma nelement_longs (t : tensor) (l : list Z) : data t = Longs l -> nelement t = length l.
Proof. unfold nelement. by intros ->. Qed.

Section IntegerLabels.

Variable to_categorical : tensor -> Z -> tensor.
Variable get_num_classes : tensor -> tensor -> option Z -> Z.

Local Abbreviation smc := (stat_scores_multiple_classes to_categorical get_num_classes).
Local Abbreviation prep := (prepare to_categorical get_num_classes).

(** The tensors that [stat_scores_multiple_classes] works on, for integer
    labels: the labels clamped to the number of classes. *)
Lemma prepare_longs (pred target : tensor) (num_classes : option Z) (argmax_dim : Z)
    (P T : list Z) :
  let c0 := categorical to_categorical pred target argmax_dim in
  let n := get_num_classes c0 target num_classes in
  data c0 = Longs P -> data target = Longs T ->
  prep pred target num_classes argmax_dim = (clamp_max c0 n, clamp_max target n, n).
Proof.
  intros c0 n HP HT. unfold prepare. fold c0. fold n.
  by rewrite (is_bool_longs _ _ HP), (is_bool_longs _ _ HT).
Qed.

(** With exact accumulators: for integer labels, cell [c] of each of the
    five vectors of the 'none' reduction holds the count that
    [stat_scores] gives for class [c], for every class [c] below the number
    of classes. *)
Lemma none_cells_exact (pred target : tensor) (num_classes : option Z)
    (argmax_dim : Z) (P T : list Z) (s : stats value) :
  let c0 := categorical to_categorical pred target argmax_dim in
  let n := get_num_classes c0 target num_classes in
  data c0 = Longs P -> data target = Longs T -> same_shape c0 target ->
  returns (smc pred target num_classes argmax_dim "none") s ->
  exists tps fps tns fns sups : list float,
    s = Stats (Vector tps) (Vector fps) (Vector tns) (Vector fns) (Vector sups)
    /\ forall c : nat, Z.of_nat c < n ->
         let sc := stat_scores to_categorical pred target (Z.of_nat c) argmax_dim in
         tps !! c = Some (Zfloat (s_tp sc)) /\ fps !! c = Some (Zfloat (s_fp sc))
         /\ tns !! c = Some (Zfloat (s_tn sc)) /\ fns !! c = Some (Zfloat (s_fn sc))
         /\ sups !! c = Some (Zfloat (s_sup sc)).
Proof.
  intros c0 n HP HT Hshape Hr.
  apply smc_none in Hr as (s0 & Hs0 & ->).
  rewrite (prepare_longs _ _ _ _ P T) in Hs0 by done. cbn [fst snd] in Hs0.
  fold c0 in Hs0. fold n in Hs0.
  apply same_shape_nelement in Hshape.
  assert (Hlen : length P = length T)
    by (by rewrite <- (nelement_longs c0 P), <- (nelement_longs target T)).
  assert (Hn : nelement (clamp_max c0 n) = nelement (clamp_max target n))
    by (by rewrite !nelement_clamp_max).
  destruct (stats_none_returns _ _ _ _ Hn Hs0) as (Hnc & HPc & HTc).
  rewrite stats_none_in_cells in Hs0 by done. apply returns_ret in Hs0 as <-.
  rewrite (flat_long_clamp_max _ _ _ HP), (flat_long_clamp_max _ _ _ HT).
  unfold none_vectors, stats_map. cbn [s_tp s_fp s_tn s_fn s_sup].
  eexists _, _, _, _, _. split; [reflexivity|]. intros c Hc.
  rewrite !lookup_vec by lia.
  rewrite none_counts_masks by (by rewrite !length_fmap).
  cbn [s_tp s_fp s_tn s_fn s_sup]. rewrite !clamped_is_class by done.
  unfold stat_scores, ne_scalar. fold c0. cbn [s_tp s_fp s_tn s_fn s_sup].
  by rewrite (eq_scalar_longs _ _ _ HP), (eq_scalar_longs _ _ _ HT).
Qed.

Lemma smc_none_raises (pred target : tensor) (num_classes : option Z) (argmax_dim : Z)
    (e : exn) :
  let r := prep pred target num_classes argmax_dim in
  raises (smc pred target num_classes argmax_dim "none") e ->
  raises (stats_none r.1.1 r.1.2 r.2) e.
Proof.
  intros r. subst r. unfold stat_scores_multiple_classes. rewrite bind_warn.
  destruct (prep pred target num_classes argmax_dim) as [[p t] n].
  unfold raises at 1. cbn [fst snd negb]. rewrite bool_decide_eq_true_2
    by (unfold possible_reductions; rewrite !elem_of_cons; tauto).
  cbn [negb String.eqb Ascii.eqb Bool.eqb].
  change (?m.1 = inl e) with (raises m e). rewrite raises_bind.
  intros [H|(s0 & _ & H)]; [done|]. by apply raises_ret in H.
Qed.

Lemma clamped_in_cells (n : Z) (l : list Z) :
  in_cells (n + 1) (Z.min n <$> l) <-> Forall (fun x => 0 <= x /\ 0 <= n) l.
Proof.
  unfold in_cells. rewrite Forall_fmap. apply Forall_proper; [|done].
  intros x. unfold compose. lia.
Qed.

End IntegerLabels.

(** ** The totals of 'sum' and the vectors of 'none' *)

Lemma sumZ_select (p x : Z) (k : nat) :
  sumZ (fun c => if decide (p = c) then x else 0) k
  = if decide (0 <= p < Z.of_nat k) then x else 0.
Proof.
  induction k as [|k IH]; [change (sumZ _ 0) with 0; cases_eqb|].
  rewrite sumZ_S, IH. cases_eqb.
Qed.

Lemma sumZ_rest (N : Z) (a b d : Z -> Z) (k : nat) :
  sumZ (fun c => N - (a c + b c + d c)) k
  = Z.of_nat k * N - (sumZ a k + sumZ b k + sumZ d k).
Proof. induction k as [|k IH]; [done|]. rewrite !sumZ_S, IH. lia. Qed.

Lemma sumZ_tally_l (h : Z -> Z) (P T : list Z) (k : nat) :
  sumZ (fun c => tally P (h <$> hits P T) c) k
  = pairsum (fun p t => if decide (0 <= p < Z.of_nat k) then h (Z.b2z (p =? t)) else 0) P T.
Proof.
  erewrite sumZ_ext; [|intros c _; apply tally_pairsum_l].
  rewrite pairsum_sumZ. apply pairsum_ext. intros p t _ _. apply sumZ_select.
Qed.

Lemma sumZ_tally_r (h : Z -> Z) (P T : list Z) (k : nat) :
  sumZ (fun c => tally T (h <$> hits P T) c) k
  = pairsum (fun p t => if decide (0 <= t < Z.of_nat k) then h (Z.b2z (p =? t)) else 0) P T.
Proof.
  erewrite sumZ_ext; [|intros c _; apply tally_pairsum_r].
  rewrite pairsum_sumZ. apply pairsum_ext. intros p t _ _. apply sumZ_select.
Qed.

Lemma pairsum_clamped (F : Z -> Z -> Z) (n : Z) (P T : list Z) :
  pairsum F (Z.min n <$> P) (Z.min n <$> T)
  = pairsum (fun p t => F (Z.min n p) (Z.min n t)) P T.
Proof. unfold pairsum. by rewrite zip_with_fmap_l, zip_with_fmap_r. Qed.

Lemma eq_tensor_longs (a b : tensor) (A B : list Z) :
  data a = Longs A -> data b = Longs B -> eq_tensor a b = zip_with Z.eqb A B.
Proof.
  intros Ha Hb. unfold eq_tensor, values. rewrite Ha, Hb. clear.
  revert B. induction A as [|x A IH]; intros [|y B]; try done.
  cbn [fmap list_fmap zip_with]. rewrite feqb_Zfloat. f_equal. apply IH.
Qed.

Lemma data_clamp_max (t : tensor) (l : list Z) (n : Z) :
  data t = Longs l -> data (clamp_max t n) = Longs (Z.min n <$> l).
Proof. unfold clamp_max. simpl. by intros ->. Qed.

(** The sums over the classes below [n] of the cells of 'none', from the
    counts that the 'sum' branch starts from: the matches, the counts of
    the overflow class [n] and the number of elements. *)
Lemma class_sums (n : Z) (P T : list Z) :
  length P = length T ->
  Forall (fun x => 0 <= x /\ 0 <= n) (P ++ T) ->
  let P' := Z.min n <$> P in
  let T' := Z.min n <$> T in
  let is_n := fun x => x =? n in
  let M := count (zip_with Z.eqb P' T') in
  let N := Z.of_nat (length P) in
  let k := Z.to_nat n in
  let tp := M - count (mask_mul (is_n <$> P') (is_n <$> T')) in
  let fp := N - M - count (mask_mul (is_n <$> P') (negb <$> (is_n <$> T'))) in
  let fn := N - M - count (mask_mul (negb <$> (is_n <$> P')) (is_n <$> T')) in
  let tn := N * (n + 1)
            - (tp + fp + fn
               + count (mask_mul (negb <$> (is_n <$> P')) (negb <$> (is_n <$> T')))) in
  let sup := N - count (is_n <$> T') in
  sumZ (fun c => s_tp (none_counts P' T' c)) k = tp
  /\ sumZ (fun c => s_fp (none_counts P' T' c)) k = fp
  /\ sumZ (fun c => s_fn (none_counts P' T' c)) k = fn
  /\ sumZ (fun c => s_sup (none_counts P' T' c)) k = sup
  /\ sumZ (fun c => s_tn (none_counts P' T' c)) k = tn - overflow n P T.
Proof.
  intros Hlen [HP HT]%Forall_app P' T' is_n M N k tp fp fn tn sup.
  rewrite Forall_forall in HP. rewrite Forall_forall in HT.
  assert (Hlen' : length P' = length T') by (unfold P', T'; by rewrite !length_fmap).
  assert (HN : N = pairsum (fun _ _ => 1) P T) by (symmetry; by apply pairsum_ones).
  assert (HM : M = pairsum (fun p t => Z.b2z (Z.min n p =? Z.min n t)) P T)
    by (unfold M, P', T'; by rewrite count_zip_pairsum, pairsum_clamped).
  assert (Htp : sumZ (fun c => tally P' (hits P' T') c) k = tp).
  { rewrite <- (list_fmap_id (hits P' T')), sumZ_tally_l. unfold tp.
    rewrite HM, (count_pairsum is_n is_n P' T'). unfold P', T'.
    rewrite !pairsum_clamped, <- pairsum_sub.
    apply pairsum_ext. intros p t Hp%HP Ht%HT. unfold is_n, k, id. cases_eqb. }
  assert (Hfp : sumZ (fun c => tally P' ((fun x => 1 - x) <$> hits P' T') c) k = fp).
  { rewrite sumZ_tally_l. unfold fp.
    rewrite HN, HM, <- (list_fmap_compose is_n negb T'),
      (count_pairsum is_n (negb ∘ is_n) P' T'). unfold P', T'.
    rewrite !pairsum_clamped, <- !pairsum_sub.
    apply pairsum_ext. intros p t Hp%HP Ht%HT. unfold is_n, k, compose. cases_eqb. }
  assert (Hfn : sumZ (fun c => tally T' ((fun x => 1 - x) <$> hits P' T') c) k = fn).
  { rewrite sumZ_tally_r. unfold fn.
    rewrite HN, HM, <- (list_fmap_compose is_n negb P'),
      (count_pairsum (negb ∘ is_n) is_n P' T'). unfold P', T'.
    rewrite !pairsum_clamped, <- !pairsum_sub.
    apply pairsum_ext. intros p t Hp%HP Ht%HT. unfold is_n, k, compose. cases_eqb. }
  assert (Hsup : sumZ (fun c => tally T' ((fun _ => 1) <$> hits P' T') c) k = sup).
  { rewrite sumZ_tally_r. unfold sup.
    rewrite HN, (count_pairsum_r is_n P' T') by done. unfold P', T'.
    rewrite !pairsum_clamped, <- pairsum_sub.
    apply pairsum_ext. intros p t Hp%HP Ht%HT. unfold is_n, k. cases_eqb. }
  assert (Hover : N = count (mask_mul (negb <$> (is_n <$> P')) (negb <$> (is_n <$> T')))
                      + overflow n P T).
  { unfold overflow.
    rewrite HN, <- (list_fmap_compose is_n negb P'), <- (list_fmap_compose is_n negb T'),
      (count_pairsum (negb ∘ is_n) (negb ∘ is_n) P' T'),
      (count_zip_pairsum (fun p t => (n <=? p) || (n <=? t)) P T).
    unfold P', T'. rewrite pairsum_clamped, <- pairsum_add.
    apply pairsum_ext. intros p t Hp%HP Ht%HT. unfold is_n, compose. cases_eqb. }
  assert (Hk : Z.of_nat k * N = n * N).
  { unfold N, k. destruct P as [|p P0]; [simpl; lia|].
    destruct (HP p) as [_ Hn]; [apply list_elem_of_here|]. by rewrite Z2Nat.id. }
  unfold none_counts. cbn [s_tp s_fp s_tn s_fn s_sup]. split_and!; try done.
  rewrite (sumZ_rest _ (fun c => tally P' (hits P' T') c)
             (fun c => tally P' ((fun x => 1 - x) <$> hits P' T') c)
             (fun c => tally T' ((fun x => 1 - x) <$> hits P' T') c)), Htp, Hfp, Hfn.
  replace (length P') with (length P) by (unfold P'; by rewrite length_fmap).
  fold N. unfold tn. lia.
Qed.

Section Totals.

Variable to_categorical : tensor -> Z -> tensor.
Variable get_num_classes : tensor -> tensor -> option Z -> Z.

Local Abbreviation smc := (stat_scores_multiple_classes to_categorical get_num_classes).
Local Abbreviation prep := (prepare to_categorical get_num_classes).

(** The run of the 'sum' reduction always returns, the totals of its
    branch. *)
Lemma smc_sum (pred target : tensor) (num_classes : option Z) (argmax_dim : Z)
    (s : stats value) :
  let r := prep pred target num_classes argmax_dim in
  returns (smc pred target num_classes argmax_dim "sum") s
  <-> s = stats_map Scalar (stats_sum to_categorical r.1.1 r.1.2 r.2 argmax_dim).
Proof.
  intros r. subst r. unfold stat_scores_multiple_classes. rewrite bind_warn.
  destruct (prep pred target num_classes argmax_dim) as [[p t] n].
  unfold returns. cbn [fst snd negb]. rewrite bool_decide_eq_true_2
    by (unfold possible_reductions; rewrite !elem_of_cons; tauto).
  cbn. split; congruence.
Qed.

(** The totals of the 'sum' branch on integer labels of one shape, as
    whole numbers. *)
Lemma stats_sum_longs (p t : tensor) (n argmax_dim : Z) (P T : list Z) :
  data p = Longs P -> data t = Longs T -> ndim p = ndim t ->
  let is_n := fun x => x =? n in
  let M := count (zip_with Z.eqb P T) in
  let N := Z.of_nat (length P) in
  let tp := M - count (mask_mul (is_n <$> P) (is_n <$> T)) in
  let fp := N - M - count (mask_mul (is_n <$> P) (negb <$> (is_n <$> T))) in
  let fn := N - M - count (mask_mul (negb <$> (is_n <$> P)) (is_n <$> T)) in
  let tn := N * (n + 1)
            - (tp + fp + fn
               + count (mask_mul (negb <$> (is_n <$> P)) (negb <$> (is_n <$> T)))) in
  let sup := N - count (is_n <$> T) in
  stats_sum to_categorical p t n argmax_dim = stats_map Zfloat (Stats tp fp tn fn sup).
Proof.
  intros HP HT Hdim is_n M N tp fp fn tn sup.
  unfold stats_sum, stat_scores, categorical, ne_scalar.
  rewrite decide_False by lia. cbn [s_tp s_fp s_tn s_fn s_sup].
  rewrite (eq_tensor_longs _ _ _ _ HP HT), (eq_scalar_longs _ _ _ HP),
    (eq_scalar_longs _ _ _ HT), (nelement_longs _ _ HP).
  rewrite !fsub_Zfloat, !fadd_Zfloat, !fsub_Zfloat. reflexivity.
Qed.

(** With exact arithmetic: for integer labels of one shape, when the
    'none' reduction returns, the TP, FP, FN and Support totals of the
    'sum' reduction are the sums of the vectors of 'none', and its TN total
    is the sum of the TN vector plus the number of elements whose
    prediction or target is at or above the number of classes. *)
Lemma sum_totals_exact (pred target : tensor) (num_classes : option Z)
    (argmax_dim : Z) (P T : list Z) (ssum snone : stats value) :
  let c0 := categorical to_categorical pred target argmax_dim in
  let n := get_num_classes c0 target num_classes in
  data c0 = Longs P -> data target = Longs T -> same_shape c0 target ->
  returns (smc pred target num_classes argmax_dim "sum") ssum ->
  returns (smc pred target num_classes argmax_dim "none") snone ->
  exists (tp fp tn fn sup : Z) (tps fps tns fns sups : list float),
    ssum = stats_map (fun x => Scalar (Zfloat x)) (Stats tp fp tn fn sup)
    /\ snone = Stats (Vector tps) (Vector fps) (Vector tns) (Vector fns) (Vector sups)
    /\ fsum tps = Zfloat tp /\ fsum fps = Zfloat fp /\ fsum fns = Zfloat fn
    /\ fsum sups = Zfloat sup
    /\ fsum tns = Zfloat (tn - overflow n P T).
Proof.
  intros c0 n HP HT Hshape Hsum Hnone.
  pose proof (prepare_longs to_categorical get_num_classes
                pred target num_classes argmax_dim P T HP HT) as Hprep.
  fold c0 in Hprep. fold n in Hprep.
  apply smc_sum in Hsum. apply smc_none in Hnone as (s0 & Hs0 & ->).
  rewrite Hprep in Hsum, Hs0. cbn [fst snd] in Hsum, Hs0.
  assert (Hdim : ndim (clamp_max c0 n) = ndim (clamp_max target n))
    by (unfold ndim, clamp_max; simpl; by destruct Hshape as (_ & _ & ->)).
  apply same_shape_nelement in Hshape.
  assert (Hlen : length P = length T)
    by (by rewrite <- (nelement_longs c0 P), <- (nelement_longs target T)).
  assert (Hn : nelement (clamp_max c0 n) = nelement (clamp_max target n))
    by (by rewrite !nelement_clamp_max).
  destruct (stats_none_returns _ _ _ _ Hn Hs0) as (Hnc & HPc & HTc).
  rewrite stats_none_in_cells in Hs0 by done. apply returns_ret in Hs0 as <-.
  rewrite (flat_long_clamp_max _ _ _ HP) in *. rewrite (flat_long_clamp_max _ _ _ HT) in *.
  apply clamped_in_cells in HPc, HTc.
  destruct (class_sums n P T Hlen) as (Htp & Hfp & Hfn & Hsup & Htn);
    [by apply Forall_app|].
  rewrite (stats_sum_longs _ _ _ _ _ _ (data_clamp_max _ _ n HP)
             (data_clamp_max _ _ n HT) Hdim) in Hsum.
  rewrite length_fmap in Hsum.
  unfold none_vectors, stats_map in *. cbn [s_tp s_fp s_tn s_fn s_sup] in *.
  eexists _, _, _, _, _, _, _, _, _, _. split; [exact Hsum|]. split; [reflexivity|].
  rewrite !fsum_vec. split_and!; f_equal; assumption.
Qed.

End Totals.

(** ** [stat_scores] with prediction and target exchanged *)

Lemma mask_mul_comm (a b : list bool) : mask_mul a b = mask_mul b a.
Proof.
  revert b. induction a as [|x a IH]; intros [|y b]; try done.
  unfold mask_mul in *. cbn [zip_with]. by rewrite IH, andb_comm.
Qed.

Section Exchange.

Variable to_categorical : tensor -> Z -> tensor.

(** X4.  For two tensors of one shape, exchanging prediction and target
    exchanges the false positives and the false negatives of every class
    and keeps the true positives and the true negatives; the support
    becomes the number of predictions of the class, TP + FP. *)
Theorem stat_scores_exchange (pred target : tensor) (class_index argmax_dim : Z) :
  same_shape pred target ->
  let s := stat_scores to_categorical pred target class_index argmax_dim in
  let s' := stat_scores to_categorical target pred class_index argmax_dim in
  s_tp s' = s_tp s /\ s_fp s' = s_fn s /\ s_fn s' = s_fp s /\ s_tn s' = s_tn s
  /\ s_sup s' = s_tp s + s_fp s.
Proof.
  intros Hshape s s'.
  assert (Hdim : ndim pred = ndim target)
    by (unfold ndim; by destruct Hshape as (_ & _ & ->)).
  apply same_shape_nelement in Hshape.
  subst s s'. unfold stat_scores, categorical, ne_scalar.
  rewrite !decide_False by lia. cbn [s_tp s_fp s_tn s_fn s_sup].
  set (a := eq_scalar pred class_index). set (b := eq_scalar target class_index).
  assert (Hlen : length b = length a)
    by (unfold a, b; by rewrite !length_eq_scalar).
  rewrite (mask_mul_comm b a), (mask_mul_comm b (negb <$> a)),
    (mask_mul_comm (negb <$> b) (negb <$> a)), (mask_mul_comm (negb <$> b) a).
  split_and!; try done.
  rewrite <- (count_support b a Hlen).
  by rewrite (mask_mul_comm b a), (mask_mul_comm (negb <$> b) a).
Qed.

End Exchange.

(** ** Errors of [precision_recall] *)

Section ReductionErrors.

Variable to_categorical : tensor -> Z -> tensor.
Variable get_num_classes : tensor -> tensor -> option Z -> Z.
Variable class_reduce : value -> value -> value -> string -> M value.

Local Abbreviation smc := (stat_scores_multiple_classes to_categorical get_num_classes).
Local Abbreviation pr := (precision_recall to_categorical get_num_classes class_reduce).

(** X5.  [precision_recall] raises what the statistics raise, or else what the
    reduction to the precision raises, or else what the reduction to the
    recall raises, and nothing else: whatever the two flags are.  With
    [return_state = True] the two reductions are made all the same, and an
    error of theirs is raised although their results are not returned. *)
Theorem precision_recall_raises (pred target : tensor) (num_classes : option Z)
    (class_reduction : string) (return_support return_state : bool) (e : exn) :
  raises (pr pred target num_classes class_reduction return_support return_state) e
  <-> raises (smc pred target num_classes 1 "none") e
      \/ exists tps fps tns fns sups : value,
           returns (smc pred target num_classes 1 "none") (Stats tps fps tns fns sups)
           /\ (raises (class_reduce tps (value_add tps fps) sups class_reduction) e
               \/ exists precision : value,
                    returns (class_reduce tps (value_add tps fps) sups class_reduction)
                      precision
                    /\ raises (class_reduce tps (value_add tps fns) sups class_reduction)
                         e).
Proof.
  unfold precision_recall. rewrite bind_warn. unfold raises at 1. cbn [fst].
  change (?m.1 = inl e) with (raises m e). rewrite raises_bind.
  apply or_iff_compat_l. split.
  - intros ([tps fps tns fns sups] & Hs & Hr). exists tps, fps, tns, fns, sups.
    split; [done|]. apply raises_bind in Hr as [Hr|(precision & Hp & Hr)]; [by left|].
    right. exists precision. split; [done|].
    apply raises_bind in Hr as [Hr|(recall & _ & Hr)]; [done|].
    destruct return_state, return_support; by apply raises_ret in Hr.
  - intros (tps & fps & tns & fns & sups & Hs & Hr).
    exists (Stats tps fps tns fns sups). split; [done|]. apply raises_bind.
    destruct Hr as [Hr|(precision & Hp & Hr)]; [by left|].
    right. exists precision. split; [done|]. apply raises_bind. by left.
Qed.

End ReductionErrors.

(** ** More on the dice score *)

Lemma count_mask_self (a : list bool) : count (mask_mul a a) = count a.
Proof.
  induction a as [|x a IH]; [done|]. unfold mask_mul in *. cbn [zip_with].
  rewrite !count_cons, IH. by destruct x.
Qed.

Lemma count_mask_neg_r (a : list bool) : count (mask_mul a (negb <$> a)) = 0.
Proof.
  induction a as [|x a IH]; [done|]. unfold mask_mul in *.
  cbn [zip_with fmap list_fmap]. rewrite count_cons, IH. by destruct x.
Qed.

Lemma count_mask_neg_l (a : list bool) : count (mask_mul (negb <$> a) a) = 0.
Proof. by rewrite mask_mul_comm, count_mask_neg_r. Qed.

Lemma any_count (a : list bool) : any a = true -> 0 < count a.
Proof.
  induction a as [|x a IH]; [done|]. rewrite count_cons.
  pose proof (count_nonneg a) as Ha. destruct x; simpl; [lia|].
  intros Hany. apply IH in Hany. lia.
Qed.

Section DiceMore.

Variable to_categorical : tensor -> Z -> tensor.
Variable reduce : value -> string -> M value.


(** X7.  With the background taken in, the scores are the score of class 0
    followed by the scores without the background. *)
Theorem dice_scores_background (pred target : tensor) (nan_score no_fg_score : float)
    (n : nat) :
  shape pred !! 1%nat = Some n -> (1 <= n)%nat ->
  exists rest : list float,
    returns (dice_scores to_categorical pred target false nan_score no_fg_score) rest
    /\ returns (dice_scores to_categorical pred target true nan_score no_fg_score)
         (dice_class to_categorical pred target nan_score no_fg_score 0 :: rest)
    /\ length rest = (n - 1)%nat.
Proof.
  intros Hs Hn.
  rewrite !(dice_scores_classes _ _ _ _ _ _ n) by (done || simpl; lia).
  eexists. split; [by apply returns_ret|]. split.
  - apply returns_ret. cbn [Z.b2z]. rewrite (seqZ_cons (1 - 1)) by lia.
    rewrite fmap_cons. f_equal. f_equal. f_equal; lia.
  - rewrite length_fmap, length_seqZ. simpl. lia.
Qed.

(** X8.  A class that the prediction has exactly where the target has it, and
    that the target has somewhere, scores 1. *)
Theorem dice_class_exact (pred target : tensor) (nan_score no_fg_score : float) (i : Z) :
  eq_scalar (categorical to_categorical pred target 1) i = eq_scalar target i ->
  any (eq_scalar target i) = true ->
  exists q : Q,
    dice_class to_categorical pred target nan_score no_fg_score i = Fin q /\ (q == 1)%Q.
Proof.
  intros Heq Hany. unfold dice_class, stat_scores, ne_scalar.
  rewrite Hany, Heq. cbn [negb s_tp s_fp s_fn].
  rewrite count_mask_self, count_mask_neg_r, count_mask_neg_l.
  apply any_count in Hany. unfold fzero. rewrite feqb_Zfloat.
  rewrite (proj2 (Z.eqb_neq _ 0)) by lia. cbn [negb].
  rewrite fdiv_Zfloat by lia. eexists. split; [reflexivity|].
  replace (2 * count (eq_scalar target i) + 0 + 0) with (2 * count (eq_scalar target i))
    by lia.
  apply Qmult_inv_r. unfold Qeq. simpl. lia.
Qed.

End DiceMore.

(** ** Rows of a normalised confusion matrix *)





(** ** The AUC decorators *)

Lemma unpack_two_enough {A} (x y : A) (rest : list A) :
  unpack_two (x :: y :: rest) = mret (x, y).
Proof. reflexivity. Qed.

Lemma unpack_two_short {A} (items : list A) :
  (length items < 2)%nat -> exists msg, unpack_two items = raise (ValueError msg).
Proof.
  destruct items as [|x [|y rest]]; simpl; [by eexists..|lia].
Qed.

Lemma unpack_two_returns {A} (items : list A) (x y : A) :
  returns (unpack_two items) (x, y) <-> exists rest, items = x :: y :: rest.
Proof.
  destruct items as [|x' [|y' rest]]; unfold returns; simpl.
  - split; [done|]. by intros [? ?].
  - split; [done|]. by intros [? ?].
  - split; [intros [= -> ->]; by eexists|]. by intros [? [= -> -> _]].
Qed.

Section DecoratorProperties.

Variable auc : tensor -> tensor -> M float.
Context {Args : Type}.

(** X10.  The call [auc_decorator()] emits the deprecation warning, once, and
    returns the wrapper.  The function that the wrapper makes of [func]
    runs [func] and then [auc] on its first two outputs, whatever follows
    them, with the warnings of the two and no other; on fewer than two
    outputs it raises a [ValueError], and [auc] is not run; what [func]
    raises, it raises. *)
Theorem auc_decorator_wraps :
  exists wrapper : (Args -> M (list tensor)) -> Args -> M float,
    auc_decorator auc = (inr wrapper, [Warning deprecated_auc_decorator DeprecationWarning])
    /\ forall (func : Args -> M (list tensor)) (args : Args) (ws : list warning),
         (forall x y rest, func args = (inr (x :: y :: rest), ws) ->
            wrapper func args = ((auc x y).1, ws ++ (auc x y).2))
         /\ (forall items, func args = (inr items, ws) -> (length items < 2)%nat ->
               exists msg, wrapper func args = (inl (ValueError msg), ws))
         /\ (forall e, func args = (inl e, ws) -> wrapper func args = (inl e, ws)).
Proof.
  eexists. split; [reflexivity|]. intros func args ws. split_and!.
  - intros x y rest Hf. cbv beta. rewrite Hf. unfold mbind, M_bind.
    rewrite unpack_two_enough. cbn [mret M_ret fst snd app].
    by destruct (auc x y) as [r w].
  - intros items Hf Hshort. cbv beta. rewrite Hf. unfold mbind, M_bind.
    destruct (unpack_two_short items Hshort) as [msg ->]. exists msg.
    unfold raise. by rewrite app_nil_r.
  - intros e Hf. cbv beta. by rewrite Hf.
Qed.

Lemma auc_loop_returns (class_results : list (list tensor)) (results : list float) :
  returns (auc_loop auc class_results) results
  <-> Forall2 (fun class_result a =>
                 exists x y rest, class_result = x :: y :: rest /\ returns (auc x y) a)
        class_results results.
Proof.
  revert results. induction class_results as [|class_result rest IH]; intros results.
  - cbn [auc_loop]. rewrite returns_ret. split; [intros <-; constructor|].
    by intros ->%Forall2_nil_inv_l.
  - cbn [auc_loop]. rewrite returns_bind. split.
    + intros ([x y] & [tl ->]%unpack_two_returns & Hr).
      apply returns_bind in Hr as (a & Ha & Hr).
      apply returns_bind in Hr as (results' & Hrest & <-%returns_ret).
      constructor; [by eexists _, _, _|]. by apply IH.
    + intros (a & results' & (x & y & tl & -> & Ha) & Hrest & ->)%Forall2_cons_inv_l.
      exists (x, y). split; [apply unpack_two_returns; by eexists|].
      apply returns_bind. exists a. split; [done|].
      apply returns_bind. exists results'. split; [by apply IH|]. by apply returns_ret.
Qed.

(** X11.  The call [multiclass_auc_decorator()] emits its deprecation warning
    and returns the wrapper.  The function that the wrapper makes of
    [func] returns exactly when [func] returns at least one class result,
    each has two outputs or more and [auc] returns on the first two of
    each; it returns these values of [auc], one per class result and in
    their order.  When [func] returns no class result it raises a
    [RuntimeError]. *)
Theorem multiclass_auc_decorator_wraps :
  exists wrapper : (Args -> M (list (list tensor))) -> Args -> M (list float),
    multiclass_auc_decorator auc
    = (inr wrapper, [Warning deprecated_multiclass_auc_decorator DeprecationWarning])
    /\ forall (func : Args -> M (list (list tensor))) (args : Args),
         (forall results : list float,
            returns (wrapper func args) results <->
            exists class_results,
              returns (func args) class_results /\ class_results <> []
              /\ Forall2 (fun class_result a =>
                            exists x y rest,
                              class_result = x :: y :: rest /\ returns (auc x y) a)
                   class_results results)
         /\ (returns (func args) [] ->
             raises (wrapper func args)
               (RuntimeError "stack expects a non-empty TensorList")).
Proof.
  eexists. split; [reflexivity|]. intros func args. split.
  - intros results. cbv beta. rewrite returns_bind. split.
    + intros (class_results & Hf & Hr). exists class_results. split; [done|].
      apply returns_bind in Hr as (results' & Hloop & Hstack).
      apply auc_loop_returns in Hloop.
      destruct results' as [|a results']; [by apply returns_raise in Hstack|].
      apply returns_ret in Hstack as <-. split; [|done].
      intros ->. by apply Forall2_nil_inv_l in Hloop.
    + intros (class_results & Hf & Hne & Hall). exists class_results. split; [done|].
      apply returns_bind. exists results. split; [by apply auc_loop_returns|].
      destruct Hall; [done|]. by apply returns_ret.
  - intros Hf. cbv beta. apply raises_bind. right. exists []. split; [done|].
    cbn [auc_loop]. rewrite bind_ret. by apply raises_raise.
Qed.

End DecoratorProperties.

(** ** Warnings *)

Lemma warnings_ret {A} (a : A) : warnings (mret a) = [].
Proof. reflexivity. Qed.

Lemma warnings_raise {A} (e : exn) : warnings (raise (A := A) e) = [].
Proof. reflexivity. Qed.






(** ** The further properties on concrete tensors *)

(** [stat_scores] for class 1 on [[1, 2, 3]] and [[0, 2, 3]], and with the
    two exchanged. *)
Lemma stat_scores_exchange_example :
  let a := label_tensor [1; 2; 3] in
  let b := label_tensor [0; 2; 3] in
  let s := stat_scores to_categorical_model a b 1 1 in
  let s' := stat_scores to_categorical_model b a 1 1 in
  (s = Stats 0 1 2 0 0 /\ s' = Stats 0 0 2 1 1)
  /\ (s_tp s' = s_tp s /\ s_fp s' = s_fn s /\ s_fn s' = s_fp s /\ s_tn s' = s_tn s
      /\ s_sup s' = s_tp s + s_fp s).
Proof.
  intros a b s s'. split; [split; reflexivity|].
  apply (stat_scores_exchange to_categorical_model a b 1 1).
  repeat split; reflexivity.
Defined.

(** The dice scores of four rows of scores whose greatest entries are in
    columns 0, 1, 2, 3, with target [[0, 1, 3, 3]]: three scores without
    the background, four with it. *)
Lemma dice_scores_background_example :
  let hi := Fin (85 # 100) in
  let lo := Fin (5 # 100) in
  let pred := score_tensor [[hi; lo; lo; lo]; [lo; hi; lo; lo];
                            [lo; lo; hi; lo]; [lo; lo; lo; hi]] in
  let target := label_tensor [0; 1; 3; 3] in
  exists rest : list float,
    returns (dice_scores to_categorical_model pred target false fzero fzero) rest
    /\ returns (dice_scores to_categorical_model pred target true fzero fzero)
         (dice_class to_categorical_model pred target fzero fzero 0 :: rest)
    /\ length rest = 3%nat.
Proof.
  intros hi lo pred target.
  apply (dice_scores_background to_categorical_model pred target fzero fzero 4).
  - reflexivity.
  - lia.
Defined.

(** On the same scores with target [[0, 1, 2, 3]], which the arg-max of
    the rows is, class 1 scores 1. *)
Lemma dice_class_exact_example :
  let hi := Fin (85 # 100) in
  let lo := Fin (5 # 100) in
  let pred := score_tensor [[hi; lo; lo; lo]; [lo; hi; lo; lo];
                            [lo; lo; hi; lo]; [lo; lo; lo; hi]] in
  let target := label_tensor [0; 1; 2; 3] in
  exists q : Q,
    dice_class to_categorical_model pred target fzero fzero 1 = Fin q /\ (q == 1)%Q.
Proof.
  intros hi lo pred target.
  apply (dice_class_exact to_categorical_model pred target fzero fzero 1).
  - vm_compute. reflexivity.
  - reflexivity.
Defined.


(** ** Support in the two reductions *)

Section Support.

Variable to_categorical : tensor -> Z -> tensor.
Variable get_num_classes : tensor -> tensor -> option Z -> Z.

Local Abbreviation smc := (stat_scores_multiple_classes to_categorical get_num_classes).
Local Abbreviation prep := (prepare to_categorical get_num_classes).

Lemma shape_prepare (pred target : tensor) (num_classes : option Z) (argmax_dim : Z) :
  let r := prep pred target num_classes argmax_dim in
  shape r.1.1 = shape (categorical to_categorical pred target argmax_dim)
  /\ shape r.1.2 = shape target.
Proof. unfold prepare. cbn [fst snd]. split; by case (negb _). Qed.

(** With exact arithmetic: for [pred] and [target] of one shape, the
    totals of the 'sum' branch satisfy TP + FN = Support. *)
Lemma sum_support_exact (pred target : tensor) (num_classes : option Z)
    (argmax_dim : Z) :
  let r := prep pred target num_classes argmax_dim in
  let ss := stats_sum to_categorical r.1.1 r.1.2 r.2 argmax_dim in
  same_shape (categorical to_categorical pred target argmax_dim) target ->
  fadd (s_tp ss) (s_fn ss) = s_sup ss.
Proof.
  intros r ss Hshape.
  destruct (shape_prepare pred target num_classes argmax_dim) as [Hsp Hst].
  destruct (nelement_prepare to_categorical get_num_classes
              pred target num_classes argmax_dim) as [Hnp Hnt].
  fold r in Hsp, Hst, Hnp, Hnt.
  assert (Hdim : ndim r.1.1 = ndim r.1.2)
    by (unfold ndim; rewrite Hsp, Hst; by destruct Hshape as (_ & _ & ->)).
  apply same_shape_nelement in Hshape.
  unfold ss, stats_sum, stat_scores, categorical, ne_scalar.
  rewrite decide_False by lia. cbn [s_tp s_fp s_tn s_fn s_sup].
  rewrite !fsub_Zfloat, fadd_Zfloat. f_equal.
  pose proof (count_support (eq_scalar r.1.1 r.2) (eq_scalar r.1.2 r.2)) as Hsup.
  rewrite !length_eq_scalar in Hsup. specialize (Hsup ltac:(congruence)). lia.
Qed.

(** With exact accumulators: for [pred] and [target] of one shape, when
    the 'none' reduction returns, its vectors satisfy
    tp[c] + fn[c] = support[c] in every cell [c]. *)
Lemma none_support_exact (pred target : tensor) (num_classes : option Z)
    (argmax_dim : Z) (s : stats value) :
  same_shape (categorical to_categorical pred target argmax_dim) target ->
  returns (smc pred target num_classes argmax_dim "none") s ->
  exists tps fps tns fns sups : list float,
    s = Stats (Vector tps) (Vector fps) (Vector tns) (Vector fns) (Vector sups)
    /\ forall (c : nat) (tp fn sup : float),
         tps !! c = Some tp -> fns !! c = Some fn -> sups !! c = Some sup ->
         fadd tp fn = sup.
Proof.
  intros Hshape Hr. apply smc_none in Hr as (s0 & Hs0 & ->).
  destruct (nelement_prepare to_categorical get_num_classes
              pred target num_classes argmax_dim) as [Hp Ht].
  set (r := prep pred target num_classes argmax_dim) in *.
  apply same_shape_nelement in Hshape.
  assert (Hn : nelement r.1.1 = nelement r.1.2) by congruence.
  destruct (stats_none_returns _ _ _ _ Hn Hs0) as (Hnc & HP & HT).
  rewrite stats_none_in_cells in Hs0 by done. apply returns_ret in Hs0 as <-.
  unfold none_vectors, stats_map. cbn [s_tp s_fp s_tn s_fn s_sup].
  eexists _, _, _, _, _. split; [reflexivity|].
  intros c tp fn sup H1 H2 H3. apply lookup_vec_Some in H1, H2, H3. subst tp fn sup.
  rewrite fadd_Zfloat. f_equal.
  assert (Hlen : length (flat_long r.1.1) = length (flat_long r.1.2))
    by (by rewrite !length_flat_long).
  rewrite none_counts_masks by done. cbn [s_tp s_fn s_sup].
  apply count_support. by rewrite !length_fmap.
Qed.

End Support.

(** ** The preprocessing and the check of the reduction *)



Section Preprocessing.

Variable to_categorical : tensor -> Z -> M tensor.
Variable get_num_classes : tensor -> tensor -> option Z -> M Z.

Local Abbreviation smc :=
  (Effectful.stat_scores_multiple_classes to_categorical get_num_classes).
Local Abbreviation prep := (Effectful.prepare to_categorical get_num_classes).



End Preprocessing.



(** ** The runs of the 'none' reduction *)


Section NoneRuns.

Variable to_categorical : tensor -> Z -> M tensor.
Variable get_num_classes : tensor -> tensor -> option Z -> M Z.

Local Abbreviation smc :=
  (Effectful.stat_scores_multiple_classes to_categorical get_num_classes).
Local Abbreviation prep := (Effectful.prepare to_categorical get_num_classes).




End NoneRuns.


(** ** Warnings of the multi-class statistics *)


Section Warnings.

Variable to_categorical : tensor -> Z -> M tensor.
Variable get_num_classes : tensor -> tensor -> option Z -> M Z.

Hypothesis to_categorical_silent : forall t d, warnings (to_categorical t d) = [].
Hypothesis get_num_classes_silent : forall p t n, warnings (get_num_classes p t n) = [].




End Warnings.



(** ** Helpers that return

    With helpers that return and emit nothing, and a number of classes
    that fits 64 bits, the functions of [Effectful] are the ones with pure
    helpers. *)

Section Agreement.

Variable to_categorical : tensor -> Z -> tensor.
Variable get_num_classes : tensor -> tensor -> option Z -> Z.

Local Abbreviation lift_tc := (fun t d => mret (M := M) (to_categorical t d)).
Local Abbreviation lift_gnc := (fun p t n => mret (M := M) (get_num_classes p t n)).

Lemma categorical_agrees (pred target : tensor) (argmax_dim : Z) :
  Effectful.categorical lift_tc pred target argmax_dim
  = mret (categorical to_categorical pred target argmax_dim).
Proof. unfold Effectful.categorical, categorical. by case_decide. Qed.

Lemma stat_scores_agrees (pred target : tensor) (class_index argmax_dim : Z) :
  Effectful.stat_scores lift_tc pred target class_index argmax_dim
  = mret (stat_scores to_categorical pred target class_index argmax_dim).
Proof. unfold Effectful.stat_scores. by rewrite categorical_agrees, bind_ret. Qed.

Lemma stats_sum_agrees (p t : tensor) (n argmax_dim : Z) :
  Effectful.stats_sum lift_tc p t n argmax_dim
  = mret (stats_sum to_categorical p t n argmax_dim).
Proof. unfold Effectful.stats_sum. by rewrite stat_scores_agrees, bind_ret. Qed.

Lemma prepare_agrees (pred target : tensor) (num_classes : option Z) (argmax_dim : Z) :
  let n := get_num_classes (categorical to_categorical pred target argmax_dim) target
             num_classes in
  - 2 ^ 63 <= n < 2 ^ 63 ->
  Effectful.prepare lift_tc lift_gnc pred target num_classes argmax_dim
  = mret (prepare to_categorical get_num_classes pred target num_classes argmax_dim).
Proof.
  intros n Hn. unfold Effectful.prepare, prepare, Effectful.clamp_max. fold n.
  rewrite categorical_agrees. repeat (rewrite bind_ret; cbv beta). fold n.
  destruct (negb _), (negb _); repeat case_decide; try done;
    by repeat (rewrite bind_ret; cbv beta).
Qed.

Lemma stat_scores_multiple_classes_agrees (pred target : tensor)
    (num_classes : option Z) (argmax_dim : Z) (reduction : string) :
  let n := get_num_classes (categorical to_categorical pred target argmax_dim) target
             num_classes in
  - 2 ^ 63 <= n < 2 ^ 63 ->
  Effectful.stat_scores_multiple_classes lift_tc lift_gnc
    pred target num_classes argmax_dim reduction
  = stat_scores_multiple_classes to_categorical get_num_classes
      pred target num_classes argmax_dim reduction.
Proof.
  intros n Hn.
  unfold Effectful.stat_scores_multiple_classes, stat_scores_multiple_classes.
  rewrite prepare_agrees by done. f_equal. rewrite bind_ret.
  destruct (prepare _ _ _ _ _ _) as [[p t] n'].
  by rewrite stats_sum_agrees, bind_ret.
Qed.

End Agreement.

(** * Single precision *)

(** ** Rounding to float32 *)

Lemma Qpow2_pos (e : Z) : (0 < 2 ^ e)%Q.
Proof. by apply Qpower_0_lt. Qed.

Lemma Qpow2_nonzero (e : Z) : ~ (2 ^ e == 0)%Q.
Proof. apply Qpower_not_0. discriminate. Qed.

Lemma Qpow2_Z (e : Z) : 0 <= e -> (2 ^ e == inject_Z (2 ^ e))%Q.
Proof. intros He. by rewrite Zpower_Qpower. Qed.

Lemma inject_Z_pos (z : Z) : 0 < z -> (0 < inject_Z z)%Q.
Proof. intros H. unfold Qlt. simpl. lia. Qed.

Lemma Qpow2_lt_inv (a b : Z) : (2 ^ a < 2 ^ b)%Q -> a < b.
Proof. intros H. by apply Qpower_lt_compat_l_inv in H. Qed.

(** The binade of a rational that is not zero. *)
Lemma binade_spec (q : Q) :
  ~ (q == 0)%Q ->
  (2 ^ Float32.binade q <= Qabs q)%Q /\ (Qabs q < 2 ^ (Float32.binade q + 1))%Q.
Proof.
  intros Hq. destruct q as [n d]. unfold Float32.binade. cbn [Qnum Qden].
  set (a := Z.abs n). set (la := Z.log2 a). set (lb := Z.log2 (Z.pos d)).
  assert (Ha : 0 < a) by (unfold Qeq in Hq; simpl in Hq; lia).
  pose proof (Z.log2_spec a Ha) as [Ha1 Ha2]. fold la in Ha1, Ha2.
  pose proof (Z.log2_spec (Z.pos d) ltac:(lia)) as [Hd1 Hd2]. fold lb in Hd1, Hd2.
  pose proof (Z.log2_nonneg a) as Hla. fold la in Hla.
  pose proof (Z.log2_nonneg (Z.pos d)) as Hlb. fold lb in Hlb.
  assert (Hup : forall k, k = la - lb -> (Qabs (n # d) < 2 ^ (k + 1))%Q).
  { intros k ->. replace (la - lb + 1) with (Z.succ la - lb) by lia.
    rewrite Qpower_minus by discriminate. rewrite !Qpow2_Z by lia.
    apply Qlt_shift_div_l; [apply inject_Z_pos; lia|].
    change (Qabs (n # d)) with (a # d)%Q. unfold Qlt, Qmult, inject_Z; simpl.
    rewrite !Z.mul_1_r.
    assert (0 < 2 ^ lb) by lia. nia. }
  assert (Hlow : forall k, k = la - lb -> (2 ^ (k - 1) < Qabs (n # d))%Q).
  { intros k ->. replace (la - lb - 1) with (la - Z.succ lb) by lia.
    rewrite Qpower_minus by discriminate. rewrite !Qpow2_Z by lia.
    apply Qlt_shift_div_r; [apply inject_Z_pos; lia|].
    change (Qabs (n # d)) with (a # d)%Q. unfold Qlt, Qmult, inject_Z; simpl.
    rewrite !Z.mul_1_r.
    assert (0 < 2 ^ la) by lia. nia. }
  destruct (Qle_bool _ _) eqn:Hb.
  - apply Qle_bool_iff in Hb. split; [done|]. by apply Hup.
  - split.
    + apply Qlt_le_weak. by apply Hlow.
    + replace (la - lb - 1 + 1) with (la - lb) by lia.
      apply Qnot_le_lt. intros H. apply Qle_bool_iff in H. congruence.
Qed.

Lemma Qpow2_split (k e : Z) : 0 <= k -> (2 ^ e == inject_Z (2 ^ k) * 2 ^ (e - k))%Q.
Proof.
  intros Hk. rewrite <- Qpow2_Z, <- Qpower_plus by (lia || discriminate).
  by replace (k + (e - k)) with e by lia.
Qed.

Lemma Qabs_nonzero (q : Q) : ~ (q == 0)%Q -> (0 < Qabs q)%Q.
Proof.
  intros Hq. destruct q as [n d]. unfold Qeq in Hq. unfold Qlt, Qabs. simpl in *. lia.
Qed.

Lemma binade_unique (q : Q) (e : Z) :
  (2 ^ e <= Qabs q)%Q -> (Qabs q < 2 ^ (e + 1))%Q -> Float32.binade q = e.
Proof.
  intros H1 H2.
  assert (Hq : ~ (q == 0)%Q).
  { intros H0. rewrite H0 in H1. apply (Qlt_not_le _ _ (Qpow2_pos e)). exact H1. }
  destruct (binade_spec q Hq) as [H3 H4].
  pose proof (Qpow2_lt_inv _ _ (Qle_lt_trans _ _ _ H3 H2)).
  pose proof (Qpow2_lt_inv _ _ (Qle_lt_trans _ _ _ H1 H4)). lia.
Qed.

Lemma binade_below (q : Q) (e : Z) :
  ~ (q == 0)%Q -> (Qabs q < 2 ^ e)%Q -> Float32.binade q < e.
Proof.
  intros Hq H. destruct (binade_spec q Hq) as [H3 _].
  exact (Qpow2_lt_inv _ _ (Qle_lt_trans _ _ _ H3 H)).
Qed.

Lemma round_even_Z (m : Z) : Float32.round_even (inject_Z m) = m.
Proof.
  unfold Float32.round_even. rewrite Qfloor_Z.
  assert (H : (inject_Z m - inject_Z m ?= 1 # 2)%Q = Lt).
  { assert (Hz : (inject_Z m - inject_Z m == 0)%Q) by ring. by rewrite Hz. }
  by rewrite H.
Qed.

Lemma round_even_comp (q q' : Q) : (q == q')%Q -> Float32.round_even q = Float32.round_even q'.
Proof.
  intros H. unfold Float32.round_even. rewrite (Qfloor_comp _ _ H).
  assert (Hc : (q - inject_Z (Qfloor q') ?= 1 # 2)%Q = (q' - inject_Z (Qfloor q') ?= 1 # 2)%Q)
    by (by rewrite H).
  by rewrite Hc.
Qed.

(** A number [m * 2^(e - 23)] with [m] of at most 24 bits, normalised or
    in the least binade, is a float32: rounding leaves it. *)
Lemma round_dyadic (q : Q) (m e : Z) :
  (q == inject_Z m * 2 ^ (e - 23))%Q ->
  Z.abs m < 2 ^ 24 -> -126 <= e <= 127 -> 2 ^ 23 <= Z.abs m \/ e = -126 ->
  Float32.round q = Fin (Qred q).
Proof.
  intros Hq Hm He Hnorm. unfold Float32.round.
  destruct (Qeq_bool q 0) eqn:H0.
  - apply Qeq_bool_iff in H0. by rewrite (Qred_complete _ _ H0).
  - apply Qeq_bool_neq in H0.
    assert (Habs : (Qabs q == inject_Z (Z.abs m) * 2 ^ (e - 23))%Q).
    { rewrite Hq, Qabs_Qmult. rewrite (Qabs_pos (2 ^ (e - 23))); [done|].
      apply Qlt_le_weak, Qpow2_pos. }
    assert (Hup : (Qabs q < 2 ^ (e + 1))%Q).
    { rewrite Habs. replace (e + 1) with (24 + (e - 23)) by lia.
      rewrite Qpower_plus by discriminate.
      apply Qmult_lt_compat_r; [apply Qpow2_pos|].
      rewrite Qpow2_Z by lia. rewrite <- Zlt_Qlt. lia. }
    assert (Hbin : Z.max (Float32.binade q) (-126) = e).
    { destruct Hnorm as [Hn| ->].
      - rewrite (binade_unique q e); [lia| |done].
        rewrite Habs. replace e with (23 + (e - 23)) at 1 by lia.
        rewrite Qpower_plus by discriminate.
        apply Qmult_le_compat_r; [|apply Qlt_le_weak, Qpow2_pos].
        rewrite Qpow2_Z by lia. rewrite <- Zle_Qle. lia.
      - destruct (Z_lt_le_dec (Z.abs m) (2 ^ 23)) as [Hs|Hn].
        + assert (Float32.binade q < -126); [|lia].
          apply binade_below; [done|]. rewrite Habs.
          replace (-126) with (23 + (-126 - 23)) at 2 by lia.
          rewrite Qpower_plus by discriminate.
          apply Qmult_lt_compat_r; [apply Qpow2_pos|].
          rewrite Qpow2_Z by lia. rewrite <- Zlt_Qlt. lia.
        + rewrite (binade_unique q (-126)); [lia| |done].
          rewrite Habs. replace (-126) with (23 + (-126 - 23)) at 1 by lia.
          rewrite Qpower_plus by discriminate.
          apply Qmult_le_compat_r; [|apply Qlt_le_weak, Qpow2_pos].
          rewrite Qpow2_Z by lia. rewrite <- Zle_Qle. lia. }
    rewrite Hbin. cbv zeta.
    assert (Hdiv : (q / 2 ^ (e - 23) == inject_Z m)%Q).
    { rewrite Hq. apply Qdiv_mult_l. apply Qpow2_nonzero. }
    rewrite (round_even_comp _ _ Hdiv), round_even_Z.
    assert (Hr : (inject_Z m * 2 ^ (e - 23) == q)%Q) by (by rewrite Hq).
    assert (Hfin : Qle_bool (2 ^ 128) (Qabs (inject_Z m * 2 ^ (e - 23))) = false).
    { apply not_true_iff_false. intros H. apply Qle_bool_iff in H.
      rewrite Hr in H. apply (Qlt_not_le _ _ Hup).
      eapply Qle_trans; [|exact H].
      apply Qpower_le_compat_l; [lia|done]. }
    rewrite Hfin. f_equal. by apply Qred_complete.
Qed.

Lemma Qred_inject_Z (z : Z) : Qred (inject_Z z) = inject_Z z.
Proof.
  unfold Qred, inject_Z.
  pose proof (Z.ggcd_gcd z 1) as Hg. pose proof (Z.ggcd_correct_divisors z 1) as Hd.
  destruct (Z.ggcd z 1) as [g [a b]]. simpl in *. rewrite Z.gcd_1_r in Hg. subst g.
  destruct Hd as [-> Hb]. rewrite Z.mul_1_l in Hb. subst b. by rewrite Z.mul_1_l.
Qed.

(** The whole numbers up to 2^24 are float32 values. *)
Lemma cast_Zfloat (z : Z) : float32_exact z -> Float32.cast (Zfloat z) = Zfloat z.
Proof.
  unfold float32_exact. intros Hz. unfold Float32.cast, Zfloat.
  destruct (decide (z = 0)) as [->|Hz0]; [reflexivity|].
  destruct (decide (Z.abs z = 2 ^ 24)) as [Hmax|Hlt].
  { assert (Hc : z = 2 ^ 24 \/ z = - 2 ^ 24) by lia.
    destruct Hc as [-> | ->]; vm_compute; reflexivity. }
  set (e := Z.log2 (Z.abs z)).
  destruct (Z.log2_spec (Z.abs z) ltac:(lia)) as [He1 He2]. fold e in He1, He2.
  pose proof (Z.log2_nonneg (Z.abs z)) as He0. fold e in He0.
  assert (He : e <= 23).
  { apply Z.lt_succ_r. apply (Z.pow_lt_mono_r_iff 2); lia. }
  rewrite (round_dyadic _ (z * 2 ^ (23 - e)) e).
  - by rewrite Qred_inject_Z.
  - rewrite inject_Z_mult, <- Qpow2_Z by lia. rewrite <- Qmult_assoc.
    rewrite <- Qpower_plus by discriminate.
    replace (23 - e + (e - 23)) with 0 by lia. simpl. ring.
  - rewrite Z.abs_mul, (Z.abs_eq (2 ^ (23 - e))) by lia.
    replace (2 ^ 24) with (2 ^ Z.succ e * 2 ^ (23 - e))
      by (rewrite <- Z.pow_add_r by lia; f_equal; lia).
    apply Z.mul_lt_mono_pos_r; lia.
  - lia.
  - left. rewrite Z.abs_mul, (Z.abs_eq (2 ^ (23 - e))) by lia.
    replace (2 ^ 23) with (2 ^ e * 2 ^ (23 - e))
      by (rewrite <- Z.pow_add_r by lia; f_equal; lia).
    apply Z.mul_le_mono_nonneg_r; lia.
Qed.

Lemma round_even_ge (x : Q) (k : Z) : (inject_Z k <= x)%Q -> k <= Float32.round_even x.
Proof.
  intros H. apply Qfloor_resp_le in H. rewrite Qfloor_Z in H.
  unfold Float32.round_even. destruct (_ ?= _)%Q; [destruct (Z.even _)|..]; lia.
Qed.

Lemma round_even_le (x : Q) (k : Z) : (x <= inject_Z k)%Q -> Float32.round_even x <= k.
Proof.
  intros H. pose proof (Qfloor_resp_le _ _ H) as Hf. rewrite Qfloor_Z in Hf.
  unfold Float32.round_even.
  destruct (decide (Qfloor x = k)) as [Hk|Hk].
  - assert (Hc : (x - inject_Z (Qfloor x) ?= 1 # 2)%Q = Lt).
    { apply Qlt_alt. rewrite Hk. apply Qle_lt_trans with 0%Q; [|done].
      apply (Qplus_le_l _ _ (inject_Z k)). ring_simplify. exact H. }
    rewrite Hc. lia.
  - destruct (_ ?= _)%Q; [destruct (Z.even _)|..]; lia.
Qed.

Lemma Qabs_lt_iff (x y : Q) : (Qabs x < y)%Q <-> (- y < x)%Q /\ (x < y)%Q.
Proof. apply Qabs_Qlt_condition. Qed.

(** Rounding gives a float32 value: rounding it again changes nothing. *)
Lemma cast_round (q : Q) : Float32.cast (Float32.round q) = Float32.round q.
Proof.
  unfold Float32.round.
  destruct (Qeq_bool q 0) eqn:H0; [reflexivity|]. apply Qeq_bool_neq in H0.
  set (e := Z.max (Float32.binade q) (-126)).
  set (x := (q / 2 ^ (e - 23))%Q). set (m := Float32.round_even x). cbv zeta.
  destruct (Qle_bool (2 ^ 128) _) eqn:Hfin; [by destruct (Qle_bool 0 q)|].
  cbn [Float32.cast].
  assert (Hfin' : (Qabs (inject_Z m * 2 ^ (e - 23)) < 2 ^ 128)%Q).
  { apply Qnot_le_lt. intros H. apply Qle_bool_iff in H. congruence. }
  rewrite Qabs_Qmult, (Qabs_pos (2 ^ (e - 23))) in Hfin'
    by apply Qlt_le_weak, Qpow2_pos.
  change (Qabs (inject_Z m)) with (inject_Z (Z.abs m)) in Hfin'.
  destruct (binade_spec q H0) as [Hb1 Hb2].
  assert (Hx : (Qabs x < inject_Z (2 ^ 24))%Q).
  { unfold x, Qdiv. rewrite Qabs_Qmult, Qabs_Qinv.
    rewrite (Qabs_pos (2 ^ (e - 23))) by apply Qlt_le_weak, Qpow2_pos.
    apply Qlt_shift_div_r; [apply Qpow2_pos|].
    rewrite <- Qpow2_Z, <- Qpower_plus by (lia || discriminate).
    eapply Qlt_le_trans; [exact Hb2|]. apply Qpower_le_compat_l; [lia|done]. }
  apply Qabs_lt_iff in Hx as [Hx1 Hx2].
  assert (Hm : Z.abs m <= 2 ^ 24).
  { pose proof (round_even_le x (2 ^ 24) (Qlt_le_weak _ _ Hx2)).
    pose proof (round_even_ge x (- 2 ^ 24)) as Hge.
    rewrite inject_Z_opp in Hge. specialize (Hge (Qlt_le_weak _ _ Hx1)).
    fold m in H, Hge. lia. }
  assert (Hsub : Z.abs m < 2 ^ 23 -> e = -126).
  { intros Hs.
    assert (Hxs : (Qabs x < inject_Z (2 ^ 23))%Q).
    { apply Qabs_lt_iff. rewrite <- inject_Z_opp. split; apply Qnot_le_lt; intros Hc.
      - apply round_even_le in Hc. fold m in Hc. lia.
      - apply round_even_ge in Hc. fold m in Hc. lia. }
    assert (Float32.binade q < e); [|lia].
    apply binade_below; [done|].
    rewrite (Qpow2_split 23 e) by lia.
    unfold x, Qdiv in Hxs. rewrite Qabs_Qmult, Qabs_Qinv in Hxs.
    rewrite (Qabs_pos (2 ^ (e - 23))) in Hxs by apply Qlt_le_weak, Qpow2_pos.
    apply (Qmult_lt_compat_r _ _ (2 ^ (e - 23))) in Hxs; [|apply Qpow2_pos].
    rewrite <- Qmult_assoc, (Qmult_comm (/ _)), Qmult_inv_r, Qmult_1_r in Hxs
      by apply Qpow2_nonzero.
    exact Hxs. }
  assert (He : -126 <= e) by lia.
  assert (Hpow : forall k, 0 <= k -> 2 ^ k <= Z.abs m -> k + (e - 23) < 128).
  { intros k Hk0 Hk. apply Qpow2_lt_inv. eapply Qle_lt_trans; [|exact Hfin'].
    rewrite Qpower_plus by discriminate.
    apply Qmult_le_compat_r; [|apply Qlt_le_weak, Qpow2_pos].
    rewrite Qpow2_Z by lia. rewrite <- Zle_Qle. lia. }
  destruct (decide (Z.abs m = 2 ^ 24)) as [Hmax|Hlt].
  - rewrite (round_dyadic _ (m / 2) (e + 1)).
    + by rewrite (Qred_complete _ _ (Qred_correct _)).
    + rewrite Qred_correct.
      assert (Hc : m = 2 ^ 24 \/ m = - 2 ^ 24) by lia.
      replace (e + 1 - 23) with (1 + (e - 23)) by lia.
      rewrite Qpower_plus by discriminate. rewrite Qmult_assoc.
      apply Qmult_comp; [|reflexivity].
      destruct Hc as [-> | ->]; reflexivity.
    + assert (Hc : m = 2 ^ 24 \/ m = - 2 ^ 24) by lia.
      destruct Hc as [-> | ->]; reflexivity.
    + specialize (Hpow 24 ltac:(lia) ltac:(lia)). lia.
    + left. assert (Hc : m = 2 ^ 24 \/ m = - 2 ^ 24) by lia.
      destruct Hc as [-> | ->]; vm_compute; discriminate.
  - rewrite (round_dyadic _ m e).
    + by rewrite (Qred_complete _ _ (Qred_correct _)).
    + apply Qred_correct.
    + lia.
    + destruct (Z_lt_le_dec (Z.abs m) (2 ^ 23)) as [Hs|Hn]; [lia|].
      specialize (Hpow 23 ltac:(lia) Hn). lia.
    + destruct (Z_lt_le_dec (Z.abs m) (2 ^ 23)) as [Hs|Hn]; [right; auto|by left].
Qed.

Lemma cast_cast (x : float) : Float32.cast (Float32.cast x) = Float32.cast x.
Proof. destruct x; try reflexivity. apply cast_round. Qed.

(** ** The dice scores in single precision *)

(** After [m] turns of a loop that updates cell [i - bg] with [upd] for
    [i = bg, bg + 1, ...], the first [m] cells hold the updates of zero and
    the other cells are as they were. *)
Lemma cells_loop (upd : float -> Z -> float) (bg : Z) (len m : nat) :
  (m <= len)%nat ->
  foldl (fun scores i => alter (fun v => upd v i) (Z.to_nat (i - bg)) scores)
    (replicate len fzero) (seqZ bg (Z.of_nat m))
  = (upd fzero <$> seqZ bg (Z.of_nat m)) ++ replicate (len - m) fzero.
Proof.
  induction m as [|m IH]; intros Hm.
  - simpl. by rewrite Nat.sub_0_r.
  - rewrite seqZ_S, foldl_snoc, IH, fmap_app by lia.
    replace (Z.to_nat (bg + Z.of_nat m - bg))
      with (length (upd fzero <$> seqZ bg (Z.of_nat m)) + 0)%nat
      by (rewrite length_fmap, length_seqZ; lia).
    rewrite alter_app_r. replace (len - m)%nat with (S (len - S m)) by lia.
    cbn [replicate alter list_alter fmap list_fmap]. by rewrite <- app_assoc.
Qed.

Section DiceFloat32.

Variable to_categorical : tensor -> Z -> tensor.

(** A cell of the float32 scores holds what is added for its class, cast
    to float32. *)
Lemma dice_scores_float32_lookup (pred target : tensor) (bg : bool)
    (nan_score no_fg_score : float) (scores : list float) (n : nat) (i : Z) :
  returns (Float32.dice_scores to_categorical pred target bg nan_score no_fg_score)
    scores ->
  shape pred !! 1%nat = Some n ->
  1 - Z.b2z bg <= i < Z.of_nat n ->
  scores !! Z.to_nat (i - (1 - Z.b2z bg))
  = Some (Float32.cast
            (Float32.dice_class to_categorical pred target nan_score no_fg_score i)).
Proof.
  intros Hr Hs Hi. unfold Float32.dice_scores, shape_at in Hr.
  rewrite Hs, bind_ret in Hr. unfold zeros in Hr.
  rewrite decide_False, bind_ret in Hr by lia. apply returns_ret in Hr as <-.
  set (first := 1 - Z.b2z bg) in *.
  set (len := Z.to_nat (Z.of_nat n - first)).
  replace (Z.of_nat n - first) with (Z.of_nat len) by lia.
  unfold Float32.dice_step.
  rewrite (cells_loop
             (fun v i => Float32.add v
                           (Float32.cast
                              (Float32.dice_class to_categorical pred target
                                 nan_score no_fg_score i)))
             first len len) by lia.
  rewrite Nat.sub_diag, app_nil_r, list_lookup_fmap, lookup_seqZ_lt by lia.
  cbn [fmap option_fmap option_map]. unfold Float32.add.
  rewrite fadd_fzero_l, cast_cast. do 3 f_equal. lia.
Qed.

(** C7, amended.  For a class [i] of the range of [dice_score] that no
    element of [target] equals, what is added to the cell of [i] is
    [no_fg_score], whatever the predictions, the conversion and
    [nan_score] are (the statistics of the class are not consulted); the
    cell, which is a float32, holds [no_fg_score] cast to float32, and
    that is [no_fg_score] itself exactly when [no_fg_score] is a float32
    value. *)
Theorem dice_no_foreground_float32 (pred target : tensor) (bg : bool)
    (nan_score no_fg_score : float) (scores : list float) (n : nat) (i : Z) :
  let first := 1 - Z.b2z bg in
  returns (Float32.dice_scores to_categorical pred target bg nan_score no_fg_score)
    scores ->
  shape pred !! 1%nat = Some n ->
  first <= i < Z.of_nat n ->
  any (eq_scalar target i) = false ->
  scores !! Z.to_nat (i - first) = Some (Float32.cast no_fg_score)
  /\ (scores !! Z.to_nat (i - first) = Some no_fg_score
      <-> Float32.cast no_fg_score = no_fg_score)
  /\ (forall (convert : tensor -> Z -> tensor) (pred' : tensor) (nan_score' : float),
        Float32.dice_class convert pred' target nan_score' no_fg_score i = no_fg_score).
Proof.
  intros first Hr Hs Hi Hany.
  assert (Hclass : forall convert pred' nan_score',
             Float32.dice_class convert pred' target nan_score' no_fg_score i
             = no_fg_score)
    by (intros; unfold Float32.dice_class; by rewrite Hany).
  assert (Hcell : scores !! Z.to_nat (i - first) = Some (Float32.cast no_fg_score)).
  { subst first. rewrite (dice_scores_float32_lookup _ _ _ _ _ _ n) by done.
    by rewrite Hclass. }
  split_and!; [exact Hcell| |exact Hclass].
  rewrite Hcell. split; [congruence|]. by intros ->.
Qed.

End DiceFloat32.

(** C7, as it was stated, fails with [no_fg_score = 0.1] on four rows of
    scores whose greatest entries are in columns 0, 1, 2, 3 and the target
    [[0, 1, 3, 3]]: no element of the target is 2, and the cell of class 2
    holds 13421773 / 2^27, the float32 nearest to 0.1, not 0.1. *)
Lemma dice_no_foreground_counterexample :
  let hi := Fin (85 # 100) in
  let lo := Fin (5 # 100) in
  let pred := score_tensor [[hi; lo; lo; lo]; [lo; hi; lo; lo];
                            [lo; lo; hi; lo]; [lo; lo; lo; hi]] in
  let target := label_tensor [0; 1; 3; 3] in
  let no_fg_score := Fin (1 # 10) in
  exists scores : list float,
    returns (Float32.dice_scores to_categorical_model pred target false fzero
               no_fg_score) scores
    /\ any (eq_scalar target 2) = false
    /\ scores !! 1%nat = Some (Fin (13421773 # 134217728))
    /\ scores !! 1%nat <> Some no_fg_score
    /\ ~ feq (Fin (13421773 # 134217728)) no_fg_score.
Proof.
  eexists. split; [vm_compute; reflexivity|].
  split_and!; [reflexivity|reflexivity|discriminate|vm_compute; discriminate].
Qed.

(** With [no_fg_score = 0.5], which is a float32 value, the cell of the
    absent class 2 holds 0.5. *)
Lemma dice_no_foreground_float32_example :
  let hi := Fin (85 # 100) in
  let lo := Fin (5 # 100) in
  let pred := score_tensor [[hi; lo; lo; lo]; [lo; hi; lo; lo];
                            [lo; lo; hi; lo]; [lo; lo; lo; hi]] in
  let target := label_tensor [0; 1; 3; 3] in
  exists scores : list float,
    returns (Float32.dice_scores to_categorical_model pred target false fzero
               (Fin (1 # 2))) scores
    /\ scores !! 1%nat = Some (Fin (1 # 2)).
Proof.
  intros hi lo pred target. eexists.
  assert (Hr : returns (Float32.dice_scores to_categorical_model pred target false fzero
                          (Fin (1 # 2)))
                 [Fin 1%Q; Fin (1 # 2); Fin (11184811 # 16777216)])
    by (vm_compute; reflexivity).
  split; [exact Hr|].
  refine (proj2 (proj1 (proj2 (dice_no_foreground_float32 to_categorical_model
                                 pred target false fzero (Fin (1 # 2)) _ 4%nat 2
                                 Hr _ _ _))) _).
  - reflexivity.
  - simpl. lia.
  - reflexivity.
  - vm_compute. reflexivity.
Defined.

(** ** The float32 accumulators within their exact range *)

Lemma of_Z_exact (z : Z) : float32_exact z -> Float32.of_Z z = Zfloat z.
Proof. apply cast_Zfloat. Qed.

Lemma add_Zfloat (a b : Z) :
  float32_exact (a + b) -> Float32.add (Zfloat a) (Zfloat b) = Zfloat (a + b).
Proof. intros H. unfold Float32.add. rewrite fadd_Zfloat. by apply cast_Zfloat. Qed.

Lemma sub_Zfloat (a b : Z) :
  float32_exact (a - b) -> Float32.sub (Zfloat a) (Zfloat b) = Zfloat (a - b).
Proof. intros H. unfold Float32.sub. rewrite fsub_Zfloat. by apply cast_Zfloat. Qed.

Lemma alter_vec_float32 (f : Z -> Z) (k : nat) (i x : Z) :
  0 <= i < Z.of_nat k -> float32_exact (f i + x) ->
  alter (fun v => Float32.add v (Zfloat x)) (Z.to_nat i) (vec f k)
  = alter (fun v => fadd v (Zfloat x)) (Z.to_nat i) (vec f k).
Proof.
  intros Hi Hb. apply list_alter_ext; [|done..].
  intros v Hv. rewrite lookup_vec in Hv by lia. injection Hv as <-.
  rewrite Z2Nat.id by lia. rewrite fadd_Zfloat. by apply add_Zfloat.
Qed.

(** A scatter-add of zeros and ones into a vector of counts that leaves
    room for one more per index is the exact one. *)
Lemma scatter_loop_float32 (f : Z -> Z) (k : nat) (index xs : list Z) :
  Forall (fun x => 0 <= x <= 1) xs ->
  (forall c, 0 <= c < Z.of_nat k -> 0 <= f c /\ f c + Z.of_nat (length index) <= 2 ^ 24) ->
  Float32.scatter_loop (vec f k) index (Zfloat <$> xs)
  = scatter_loop (vec f k) index (Zfloat <$> xs).
Proof.
  revert f xs. induction index as [|i index IH]; intros f xs Hxs Hf; [done|].
  destruct xs as [|x xs]; [done|].
  apply Forall_cons in Hxs as [Hx Hxs]. rewrite fmap_cons.
  cbn [Float32.scatter_loop scatter_loop]. rewrite length_vec.
  case_decide as Hi; [|done].
  specialize (Hf i Hi) as Hfi. cbn [length] in Hfi.
  rewrite alter_vec_float32 by (done || unfold float32_exact; lia).
  rewrite alter_vec by done. apply IH; [done|].
  intros c Hc. specialize (Hf c Hc). cbn [length] in Hf. case_decide; lia.
Qed.

Lemma scatter_add_float32 (f : Z -> Z) (k : nat) (index xs : list Z) :
  Forall (fun x => 0 <= x <= 1) xs ->
  (forall c, 0 <= c < Z.of_nat k -> 0 <= f c /\ f c + Z.of_nat (length index) <= 2 ^ 24) ->
  Float32.scatter_add (vec f k) index (Zfloat <$> xs)
  = scatter_add (vec f k) index (Zfloat <$> xs).
Proof.
  intros Hxs Hf. unfold Float32.scatter_add, scatter_add.
  case_decide; [done|]. by apply scatter_loop_float32.
Qed.

Lemma bind_ext_returns {A B} (m : M A) (k k' : A -> M B) :
  (forall a, returns m a -> k a = k' a) -> m ≫= k = m ≫= k'.
Proof.
  intros H. unfold returns in H. destruct m as [[e|a] w]; simpl in *; [done|].
  by rewrite (H a).
Qed.

Lemma hits_bits (P T : list Z) : Forall (fun x => 0 <= x <= 1) (hits P T).
Proof.
  unfold hits. revert T. induction P as [|p P IH]; intros [|t T]; simpl; try done.
  constructor; [|apply IH]. destruct (p =? t); simpl; lia.
Qed.

Lemma match_false_float32 (h : list Z) :
  Forall (fun x => 0 <= x <= 1) h ->
  Float32.sub fone <$> (Zfloat <$> h) = fsub fone <$> (Zfloat <$> h).
Proof.
  intros Hh. rewrite <- !list_fmap_compose. apply Forall_fmap_ext_1.
  eapply Forall_impl; [exact Hh|]. intros x Hx. unfold compose, fone.
  simpl in Hx. rewrite fsub_Zfloat. apply sub_Zfloat. unfold float32_exact. lia.
Qed.

Lemma vec_add_float32 (f g : Z -> Z) (k : nat) :
  (forall c, 0 <= c < Z.of_nat k -> float32_exact (f c + g c)) ->
  zip_with Float32.add (vec f k) (vec g k) = vec (fun c => f c + g c) k.
Proof.
  intros Hb. unfold vec. rewrite zip_with_fmap_l, zip_with_fmap_r, zip_with_diag.
  apply list_fmap_ext. intros i c Hc. apply lookup_seq in Hc as [-> Hlt].
  apply add_Zfloat, Hb. lia.
Qed.

Lemma vec_rsub_float32 (n : Z) (f : Z -> Z) (k : nat) :
  float32_exact n ->
  (forall c, 0 <= c < Z.of_nat k -> float32_exact (n - f c)) ->
  Float32.sub (Float32.of_Z n) <$> vec f k = vec (fun c => n - f c) k.
Proof.
  intros Hn Hb. unfold vec. rewrite <- list_fmap_compose.
  apply list_fmap_ext. intros i c Hc. apply lookup_seq in Hc as [-> Hlt].
  unfold compose. rewrite of_Z_exact by done. apply sub_Zfloat, Hb. lia.
Qed.

(** The cells of a class are counts of disjoint sets of elements. *)
Lemma none_counts_bounds (P T : list Z) (c : Z) :
  length P = length T ->
  let s := none_counts P T c in
  0 <= s_tp s /\ 0 <= s_fp s /\ 0 <= s_fn s /\ 0 <= s_tn s.
Proof.
  intros Hlen. cbv zeta. rewrite none_counts_masks by done.
  cbn [s_tp s_fp s_fn s_tn]. split_and!; apply count_nonneg.
Qed.

(** On at most 2^24 elements the float32 vectors of the 'none' branch are
    the exact ones. *)
Lemma stats_none_float32 (p t : tensor) (nc : Z) :
  nelement p = nelement t -> float32_exact (Z.of_nat (nelement t)) ->
  Float32.stats_none p t nc = stats_none p t nc.
Proof.
  intros Hn Hb. rewrite <- !length_flat_long in Hn.
  rewrite <- length_flat_long in Hb. unfold float32_exact in Hb.
  pose proof (length_hits _ _ Hn) as Hh.
  pose proof (hits_bits (flat_long p) (flat_long t)) as Hbits.
  unfold Float32.stats_none, stats_none, zeros. case_decide as Hnc; [done|].
  repeat (rewrite bind_ret; cbv beta).
  set (P := flat_long p) in *. set (T := flat_long t) in *.
  rewrite match_true_hits, (match_false_float32 _ Hbits), match_false_hits, ones_hits.
  rewrite zeros_vec.
  assert (Hroom : forall index : list Z, length index = length P ->
            forall c, 0 <= c < Z.of_nat (Z.to_nat (nc + 1)) ->
              0 <= (fun _ : Z => 0) c /\ (fun _ : Z => 0) c + Z.of_nat (length index) <= 2 ^ 24)
    by (intros index Hi c _; simpl; lia).
  rewrite !scatter_add_float32
    by first [exact Hbits
             |apply Forall_fmap; eapply Forall_impl; [exact Hbits|]; simpl; lia
             |apply Hroom; congruence].
  apply bind_ext_returns. intros tps Htps.
  apply scatter_add_vec in Htps as [HP ->]; [|congruence].
  apply bind_ext_returns. intros fps Hfps.
  apply scatter_add_vec in Hfps as [_ ->]; [|rewrite length_fmap; congruence].
  apply bind_ext_returns. intros fns Hfns.
  apply scatter_add_vec in Hfns as [HT ->]; [|rewrite length_fmap; congruence].
  assert (Hc : forall c, let s := none_counts P T c in
                 0 <= s_tp s /\ 0 <= s_fp s /\ 0 <= s_fn s /\ 0 <= s_tn s)
    by (intros c; by apply none_counts_bounds).
  unfold none_counts in Hc. cbn [s_tp s_fp s_fn s_tn] in Hc.
  rewrite !vec_add_float32, vec_rsub_float32, !vec_add, vec_rsub;
    [done|unfold float32_exact; lia|..];
    intros c _; specialize (Hc c); unfold float32_exact; lia.
Qed.

Lemma length_values (t : tensor) : length (values t) = nelement t.
Proof. unfold values, nelement. destruct (data t); by rewrite ?length_fmap. Qed.

Lemma count_eq_tensor (p t : tensor) :
  0 <= count (eq_tensor p t) <= Z.of_nat (nelement t).
Proof.
  split; [apply count_nonneg|].
  etrans; [apply count_le_length|]. unfold eq_tensor.
  rewrite length_zip_with, !length_values. lia.
Qed.

Ltac float32_counts tac :=
  repeat first [rewrite of_Z_exact by tac
               |rewrite sub_Zfloat by tac
               |rewrite add_Zfloat by tac].

Section SumFloat32.

Variable to_categorical : tensor -> Z -> tensor.

(** On at most 2^24 elements the float32 totals of TP, FP, FN and Support
    of the 'sum' branch are the exact ones. *)
Lemma stats_sum_float32_support (p t : tensor) (n argmax_dim : Z) :
  ndim p = ndim t -> nelement p = nelement t ->
  float32_exact (Z.of_nat (nelement t)) ->
  let s32 := Float32.stats_sum to_categorical p t n argmax_dim in
  let s := stats_sum to_categorical p t n argmax_dim in
  s_tp s32 = s_tp s /\ s_fp s32 = s_fp s /\ s_fn s32 = s_fn s /\ s_sup s32 = s_sup s.
Proof.
  intros Hdim Hn Hb. unfold float32_exact in Hb.
  unfold Float32.stats_sum, stats_sum, stat_scores, categorical, ne_scalar.
  rewrite decide_False by lia. cbn [s_tp s_fp s_tn s_fn s_sup]. rewrite Hn.
  pose proof (count_eq_tensor p t) as HM.
  pose proof (count_partition (eq_scalar p n) (eq_scalar t n)) as Hpart.
  rewrite !length_eq_scalar in Hpart. specialize (Hpart Hn).
  pose proof (count_support (eq_scalar p n) (eq_scalar t n)) as Hsup.
  rewrite !length_eq_scalar in Hsup. specialize (Hsup Hn).
  pose proof (count_nonneg (mask_mul (eq_scalar p n) (eq_scalar t n))).
  pose proof (count_nonneg (mask_mul (eq_scalar p n) (negb <$> eq_scalar t n))).
  pose proof (count_nonneg (mask_mul (negb <$> eq_scalar p n) (negb <$> eq_scalar t n))).
  pose proof (count_nonneg (mask_mul (negb <$> eq_scalar p n) (eq_scalar t n))).
  float32_counts ltac:(unfold float32_exact; lia).
  by rewrite !fsub_Zfloat.
Qed.

(** With [3 * N] and [N * (num_classes + 1)] at most 2^24 for [N]
    elements, all the float32 totals of the 'sum' branch are the exact
    ones. *)
Lemma stats_sum_float32 (p t : tensor) (n argmax_dim : Z) :
  ndim p = ndim t -> nelement p = nelement t -> -1 <= n ->
  float32_exact (3 * Z.of_nat (nelement t)) ->
  float32_exact (Z.of_nat (nelement t) * (n + 1)) ->
  Float32.stats_sum to_categorical p t n argmax_dim
  = stats_sum to_categorical p t n argmax_dim.
Proof.
  intros Hdim Hn Hnc Hb HK. unfold float32_exact in Hb, HK.
  unfold Float32.stats_sum, stats_sum, stat_scores, categorical, ne_scalar.
  rewrite decide_False by lia. cbn [s_tp s_fp s_tn s_fn s_sup]. rewrite Hn.
  pose proof (count_eq_tensor p t) as HM.
  pose proof (count_partition (eq_scalar p n) (eq_scalar t n)) as Hpart.
  rewrite !length_eq_scalar in Hpart. specialize (Hpart Hn).
  pose proof (count_support (eq_scalar p n) (eq_scalar t n)) as Hsup.
  rewrite !length_eq_scalar in Hsup. specialize (Hsup Hn).
  pose proof (count_nonneg (mask_mul (eq_scalar p n) (eq_scalar t n))).
  pose proof (count_nonneg (mask_mul (eq_scalar p n) (negb <$> eq_scalar t n))).
  pose proof (count_nonneg (mask_mul (negb <$> eq_scalar p n) (negb <$> eq_scalar t n))).
  pose proof (count_nonneg (mask_mul (negb <$> eq_scalar p n) (eq_scalar t n))).
  assert (HK0 : 0 <= Z.of_nat (nelement t) * (n + 1)) by (apply Z.mul_nonneg_nonneg; lia).
  set (K := Z.of_nat (nelement t) * (n + 1)) in *.
  float32_counts ltac:(unfold float32_exact; lia).
  by rewrite !fsub_Zfloat, !fadd_Zfloat, !fsub_Zfloat.
Qed.

End SumFloat32.

(** ** The multi-class statistics in single precision *)

Section CountsFloat32.

Variable to_categorical : tensor -> Z -> tensor.
Variable get_num_classes : tensor -> tensor -> option Z -> Z.

Local Abbreviation smc := (stat_scores_multiple_classes to_categorical get_num_classes).
Local Abbreviation smc32 :=
  (Float32.stat_scores_multiple_classes to_categorical get_num_classes).
Local Abbreviation prep := (prepare to_categorical get_num_classes).

(** On at most 2^24 elements the run of the 'none' reduction with float32
    accumulators is the run with exact ones. *)
Lemma smc_none_float32 (pred target : tensor) (num_classes : option Z) (argmax_dim : Z) :
  nelement (categorical to_categorical pred target argmax_dim) = nelement target ->
  float32_exact (Z.of_nat (nelement target)) ->
  smc32 pred target num_classes argmax_dim "none"
  = smc pred target num_classes argmax_dim "none".
Proof.
  intros Hn Hb.
  destruct (nelement_prepare to_categorical get_num_classes
              pred target num_classes argmax_dim) as [Hp Ht].
  unfold Float32.stat_scores_multiple_classes, stat_scores_multiple_classes.
  destruct (prep pred target num_classes argmax_dim) as [[p t] n].
  cbn [fst snd] in Hp, Ht.
  rewrite stats_none_float32; [done|congruence|by rewrite Ht].
Qed.

(** The run of the 'sum' reduction always returns, the float32 totals of
    its branch. *)
Lemma smc_sum_float32_returns (pred target : tensor) (num_classes : option Z)
    (argmax_dim : Z) (s : stats value) :
  let r := prep pred target num_classes argmax_dim in
  returns (smc32 pred target num_classes argmax_dim "sum") s
  <-> s = stats_map Scalar (Float32.stats_sum to_categorical r.1.1 r.1.2 r.2 argmax_dim).
Proof.
  intros r. subst r. unfold Float32.stat_scores_multiple_classes. rewrite bind_warn.
  destruct (prep pred target num_classes argmax_dim) as [[p t] n].
  unfold returns. cbn [fst snd negb]. rewrite bool_decide_eq_true_2
    by (unfold possible_reductions; rewrite !elem_of_cons; tauto).
  cbn. split; congruence.
Qed.

(** With [3 * N] and [N * (num_classes + 1)] at most 2^24 for [N] elements
    the run of the 'sum' reduction in float32 is the exact one. *)
Lemma smc_sum_float32 (pred target : tensor) (num_classes : option Z) (argmax_dim : Z) :
  let r := prep pred target num_classes argmax_dim in
  same_shape (categorical to_categorical pred target argmax_dim) target ->
  -1 <= r.2 ->
  float32_exact (3 * Z.of_nat (nelement target)) ->
  float32_exact (Z.of_nat (nelement target) * (r.2 + 1)) ->
  smc32 pred target num_classes argmax_dim "sum"
  = smc pred target num_classes argmax_dim "sum".
Proof.
  intros r Hshape Hnc Hb HK. subst r.
  destruct (nelement_prepare to_categorical get_num_classes
              pred target num_classes argmax_dim) as [Hp Ht].
  destruct (shape_prepare to_categorical get_num_classes
              pred target num_classes argmax_dim) as [Hsp Hst].
  unfold Float32.stat_scores_multiple_classes, stat_scores_multiple_classes.
  destruct (prep pred target num_classes argmax_dim) as [[p t] n].
  cbn [fst snd] in *.
  assert (Hdim : ndim p = ndim t)
    by (unfold ndim; rewrite Hsp, Hst; by destruct Hshape as (_ & _ & ->)).
  apply same_shape_nelement in Hshape.
  rewrite stats_sum_float32; [done|done|congruence|done|by rewrite Ht|by rewrite Ht].
Qed.

(** C2, amended.  For [pred] and [target] of one shape and of at most 2^24
    elements, when the 'none' reduction, with its float32 accumulators,
    returns, it returns five vectors of [num_classes] cells; in every cell
    [c], tp[c] + fp[c] + fn[c] + tn[c] is the number of elements; and the
    support vector sums to the number of target labels (as clamped by the
    function) that lie below [num_classes], which is the number of
    elements when no target label reaches [num_classes]. *)
Theorem none_reduction_counts (pred target : tensor) (num_classes : option Z)
    (argmax_dim : Z) (s : stats value) :
  let r := prep pred target num_classes argmax_dim in
  let n := r.2 in
  let labels := flat_long r.1.2 in
  let total := Zfloat (Z.of_nat (nelement target)) in
  same_shape (categorical to_categorical pred target argmax_dim) target ->
  float32_exact (Z.of_nat (nelement target)) ->
  returns (smc32 pred target num_classes argmax_dim "none") s ->
  exists tps fps tns fns sups : list float,
    s = Stats (Vector tps) (Vector fps) (Vector tns) (Vector fns) (Vector sups)
    /\ (length tps = Z.to_nat n /\ length fps = Z.to_nat n
        /\ length tns = Z.to_nat n /\ length fns = Z.to_nat n
        /\ length sups = Z.to_nat n)
    /\ (forall (c : nat) (tp fp fn tn : float),
          tps !! c = Some tp -> fps !! c = Some fp ->
          fns !! c = Some fn -> tns !! c = Some tn ->
          fadd (fadd (fadd tp fp) fn) tn = total)
    /\ fsum sups = Zfloat (count (below n labels))
    /\ (Forall (fun l => l < n) labels -> fsum sups = total).
Proof.
  intros r n labels total Hshape Hb Hr.
  rewrite smc_none_float32 in Hr by (done || by apply same_shape_nelement).
  exact (none_counts_exact to_categorical get_num_classes
           pred target num_classes argmax_dim s Hshape Hr).
Qed.

(** X1.  For integer labels, on at most 2^24 elements, cell [c] of each of
    the five float32 vectors of the 'none' reduction holds the count that
    [stat_scores] gives for class [c], for every class [c] below the number
    of classes. *)
Theorem none_matches_stat_scores (pred target : tensor) (num_classes : option Z)
    (argmax_dim : Z) (P T : list Z) (s : stats value) :
  let c0 := categorical to_categorical pred target argmax_dim in
  let n := get_num_classes c0 target num_classes in
  data c0 = Longs P -> data target = Longs T -> same_shape c0 target ->
  float32_exact (Z.of_nat (nelement target)) ->
  returns (smc32 pred target num_classes argmax_dim "none") s ->
  exists tps fps tns fns sups : list float,
    s = Stats (Vector tps) (Vector fps) (Vector tns) (Vector fns) (Vector sups)
    /\ forall c : nat, Z.of_nat c < n ->
         let sc := stat_scores to_categorical pred target (Z.of_nat c) argmax_dim in
         tps !! c = Some (Zfloat (s_tp sc)) /\ fps !! c = Some (Zfloat (s_fp sc))
         /\ tns !! c = Some (Zfloat (s_tn sc)) /\ fns !! c = Some (Zfloat (s_fn sc))
         /\ sups !! c = Some (Zfloat (s_sup sc)).
Proof.
  intros c0 n HP HT Hshape Hb Hr.
  rewrite smc_none_float32 in Hr by (done || by apply same_shape_nelement).
  exact (none_cells_exact to_categorical get_num_classes
           pred target num_classes argmax_dim P T s HP HT Hshape Hr).
Qed.

(** X14.  For [pred] and [target] of one shape and of at most 2^24
    elements, when the 'none' reduction, with its float32 accumulators,
    returns, its vectors satisfy tp[c] + fn[c] = support[c] in every cell
    [c]. *)
Theorem none_support (pred target : tensor) (num_classes : option Z)
    (argmax_dim : Z) (s : stats value) :
  same_shape (categorical to_categorical pred target argmax_dim) target ->
  float32_exact (Z.of_nat (nelement target)) ->
  returns (smc32 pred target num_classes argmax_dim "none") s ->
  exists tps fps tns fns sups : list float,
    s = Stats (Vector tps) (Vector fps) (Vector tns) (Vector fns) (Vector sups)
    /\ forall (c : nat) (tp fn sup : float),
         tps !! c = Some tp -> fns !! c = Some fn -> sups !! c = Some sup ->
         fadd tp fn = sup.
Proof.
  intros Hshape Hb Hr.
  rewrite smc_none_float32 in Hr by (done || by apply same_shape_nelement).
  exact (none_support_exact to_categorical get_num_classes
           pred target num_classes argmax_dim s Hshape Hr).
Qed.

(** X3.  For integer labels of one shape, with [3 * N] and
    [N * (num_classes + 1)] at most 2^24 for [N] elements (the range in
    which no float32 operation of the two branches rounds), when the 'sum'
    and the 'none' reductions return: the TP, FP, FN and Support totals of
    'sum' are the sums of the vectors of 'none', and its TN total is the
    sum of the TN vector plus the number of elements whose prediction or
    target is at or above the number of classes. *)
Theorem sum_totals_and_none_vectors (pred target : tensor) (num_classes : option Z)
    (argmax_dim : Z) (P T : list Z) (ssum snone : stats value) :
  let c0 := categorical to_categorical pred target argmax_dim in
  let n := get_num_classes c0 target num_classes in
  data c0 = Longs P -> data target = Longs T -> same_shape c0 target ->
  float32_exact (3 * Z.of_nat (nelement target)) ->
  float32_exact (Z.of_nat (nelement target) * (n + 1)) ->
  returns (smc32 pred target num_classes argmax_dim "sum") ssum ->
  returns (smc32 pred target num_classes argmax_dim "none") snone ->
  exists (tp fp tn fn sup : Z) (tps fps tns fns sups : list float),
    ssum = stats_map (fun x => Scalar (Zfloat x)) (Stats tp fp tn fn sup)
    /\ snone = Stats (Vector tps) (Vector fps) (Vector tns) (Vector fns) (Vector sups)
    /\ fsum tps = Zfloat tp /\ fsum fps = Zfloat fp /\ fsum fns = Zfloat fn
    /\ fsum sups = Zfloat sup
    /\ fsum tns = Zfloat (tn - overflow n P T).
Proof.
  intros c0 n HP HT Hshape Hb HK Hsum Hnone.
  assert (HbN : float32_exact (Z.of_nat (nelement target)))
    by (unfold float32_exact in *; lia).
  pose proof (same_shape_nelement _ _ Hshape) as Hn.
  rewrite smc_none_float32 in Hnone by done.
  pose proof (prepare_longs to_categorical get_num_classes
                pred target num_classes argmax_dim P T HP HT) as Hprep.
  fold c0 in Hprep. fold n in Hprep.
  assert (Hnc : -1 <= n).
  { pose proof Hnone as Hrun. apply smc_none in Hrun as (s0 & Hs0 & _).
    rewrite Hprep in Hs0. cbn [fst snd] in Hs0.
    apply stats_none_returns in Hs0 as (H1 & _); [done|].
    by rewrite !nelement_clamp_max. }
  rewrite smc_sum_float32 in Hsum by (rewrite ?Hprep; done).
  exact (sum_totals_exact to_categorical get_num_classes
           pred target num_classes argmax_dim P T ssum snone HP HT Hshape Hsum Hnone).
Qed.

(** X13.  For [pred] and [target] of one shape and of at most 2^24
    elements, the float32 totals that the 'sum' reduction returns satisfy
    TP + FN = Support. *)
Theorem sum_support (pred target : tensor) (num_classes : option Z) (argmax_dim : Z)
    (s : stats value) :
  same_shape (categorical to_categorical pred target argmax_dim) target ->
  float32_exact (Z.of_nat (nelement target)) ->
  returns (smc32 pred target num_classes argmax_dim "sum") s ->
  exists tp fp tn fn sup : float,
    s = stats_map Scalar (Stats tp fp tn fn sup) /\ fadd tp fn = sup.
Proof.
  intros Hshape Hb Hr. apply smc_sum_float32_returns in Hr.
  pose proof (sum_support_exact to_categorical get_num_classes
                pred target num_classes argmax_dim Hshape) as Hex.
  destruct (shape_prepare to_categorical get_num_classes
              pred target num_classes argmax_dim) as [Hsp Hst].
  destruct (nelement_prepare to_categorical get_num_classes
              pred target num_classes argmax_dim) as [Hnp Hnt].
  set (r := prep pred target num_classes argmax_dim) in *.
  assert (Hdim : ndim r.1.1 = ndim r.1.2)
    by (unfold ndim; rewrite Hsp, Hst; by destruct Hshape as (_ & _ & ->)).
  apply same_shape_nelement in Hshape.
  destruct (stats_sum_float32_support to_categorical r.1.1 r.1.2 r.2 argmax_dim)
    as (Htp & _ & Hfn & Hsup); [done|congruence|by rewrite Hnt|].
  set (s32 := Float32.stats_sum to_categorical r.1.1 r.1.2 r.2 argmax_dim) in *.
  exists (s_tp s32), (s_fp s32), (s_tn s32), (s_fn s32), (s_sup s32).
  split; [exact Hr|]. rewrite Htp, Hfn, Hsup. exact Hex.
Qed.

End CountsFloat32.

(** ** The statistics in single precision on concrete tensors *)

(** The 'none' reduction on four labels with the number of classes taken
    from the labels: the support sums to 4. *)
Lemma none_reduction_counts_example :
  let pred := label_tensor [0; 1; 2; 3] in
  let target := label_tensor [0; 2; 2; 2] in
  let s := stats_map (fun l => Vector (Zfloat <$> l))
             (Stats [1; 0; 1; 0] [0; 1; 0; 1] [3; 3; 1; 3] [0; 0; 2; 0] [1; 0; 3; 0]) in
  returns (Float32.stat_scores_multiple_classes to_categorical_model
             get_num_classes_model pred target None 1 "none") s
  /\ exists tps fps tns fns sups : list float,
       s = Stats (Vector tps) (Vector fps) (Vector tns) (Vector fns) (Vector sups)
       /\ fsum sups = Zfloat 4.
Proof.
  intros pred target s.
  assert (Hr : returns (Float32.stat_scores_multiple_classes to_categorical_model
                          get_num_classes_model pred target None 1 "none") s)
    by (vm_compute; reflexivity).
  split; [exact Hr|].
  destruct (none_reduction_counts to_categorical_model get_num_classes_model
              pred target None 1 s)
    as (tps & fps & tns & fns & sups & Hs & _ & _ & _ & Hall).
  - repeat split; reflexivity.
  - vm_compute. discriminate.
  - exact Hr.
  - exists tps, fps, tns, fns, sups. split; [exact Hs|].
    apply Hall. vm_compute. repeat constructor.
Defined.

(** The 'none' reduction on [pred = [0, 1, 2, 3]], [target = [0, 2, 2, 2]]:
    cell 2 of the vectors holds the counts of [stat_scores] for class 2,
    [(1, 0, 1, 2, 3)]. *)
Lemma none_matches_stat_scores_example :
  let pred := label_tensor [0; 1; 2; 3] in
  let target := label_tensor [0; 2; 2; 2] in
  let s := stats_map (fun l => Vector (Zfloat <$> l))
             (Stats [1; 0; 1; 0] [0; 1; 0; 1] [3; 3; 1; 3] [0; 0; 2; 0] [1; 0; 3; 0]) in
  stat_scores to_categorical_model pred target 2 1 = Stats 1 0 1 2 3
  /\ exists tps fps tns fns sups : list float,
       s = Stats (Vector tps) (Vector fps) (Vector tns) (Vector fns) (Vector sups)
       /\ tps !! 2%nat = Some (Zfloat 1) /\ fps !! 2%nat = Some (Zfloat 0)
       /\ tns !! 2%nat = Some (Zfloat 1) /\ fns !! 2%nat = Some (Zfloat 2)
       /\ sups !! 2%nat = Some (Zfloat 3).
Proof.
  intros pred target s. split; [reflexivity|].
  destruct (none_matches_stat_scores to_categorical_model get_num_classes_model
              pred target None 1 [0; 1; 2; 3] [0; 2; 2; 2] s)
    as (tps & fps & tns & fns & sups & Hs & Hc).
  - reflexivity.
  - reflexivity.
  - repeat split; reflexivity.
  - vm_compute. discriminate.
  - vm_compute. reflexivity.
  - exists tps, fps, tns, fns, sups. split; [exact Hs|].
    apply (Hc 2%nat). vm_compute. reflexivity.
Defined.

(** The 'sum' and 'none' reductions on [pred = [0, 1]], [target = [0, 2]]
    and [num_classes = 2]: one element is in the overflow class, and the
    TN total is one more than the sum of the TN vector. *)
Lemma sum_totals_and_none_vectors_example :
  let pred := label_tensor [0; 1] in
  let target := label_tensor [0; 2] in
  let ssum := stats_map (fun x => Scalar (Zfloat x)) (Stats 1 1 3 0 1) in
  let snone := stats_map (fun l => Vector (Zfloat <$> l))
                 (Stats [1; 0] [0; 1] [1; 1] [0; 0] [1; 0]) in
  overflow 2 [0; 1] [0; 2] = 1
  /\ exists (tp fp tn fn sup : Z) (tps fps tns fns sups : list float),
       ssum = stats_map (fun x => Scalar (Zfloat x)) (Stats tp fp tn fn sup)
       /\ snone = Stats (Vector tps) (Vector fps) (Vector tns) (Vector fns) (Vector sups)
       /\ fsum tps = Zfloat tp /\ fsum fps = Zfloat fp /\ fsum fns = Zfloat fn
       /\ fsum sups = Zfloat sup
       /\ fsum tns = Zfloat (tn - 1).
Proof.
  intros pred target ssum snone. split; [reflexivity|].
  apply (sum_totals_and_none_vectors to_categorical_model get_num_classes_model
           pred target (Some 2) 1 [0; 1] [0; 2] ssum snone).
  - reflexivity.
  - reflexivity.
  - repeat split; reflexivity.
  - vm_compute. discriminate.
  - vm_compute. discriminate.
  - vm_compute. reflexivity.
  - vm_compute. reflexivity.
Defined.

(** The 'sum' reduction on [pred = [0, 1]], [target = [0, 2]] and
    [num_classes = 2]: TP = 1, FN = 0 and Support = 1. *)
Lemma sum_support_example :
  let pred := label_tensor [0; 1] in
  let target := label_tensor [0; 2] in
  let s := stats_map (fun x => Scalar (Zfloat x)) (Stats 1 1 3 0 1) in
  exists tp fp tn fn sup : float,
    s = stats_map Scalar (Stats tp fp tn fn sup) /\ fadd tp fn = sup.
Proof.
  intros pred target s.
  apply (sum_support to_categorical_model get_num_classes_model pred target (Some 2) 1 s).
  - repeat split; reflexivity.
  - vm_compute. discriminate.
  - vm_compute. reflexivity.
Defined.

(** The 'none' reduction on [pred = [0, 1, 2, 3]], [target = [0, 2, 2, 2]]:
    in cell 2, tp + fn = 1 + 2 is the support 3. *)
Lemma none_support_example :
  let pred := label_tensor [0; 1; 2; 3] in
  let target := label_tensor [0; 2; 2; 2] in
  let s := stats_map (fun l => Vector (Zfloat <$> l))
             (Stats [1; 0; 1; 0] [0; 1; 0; 1] [3; 3; 1; 3] [0; 0; 2; 0] [1; 0; 3; 0]) in
  exists tps fps tns fns sups : list float,
    s = Stats (Vector tps) (Vector fps) (Vector tns) (Vector fns) (Vector sups)
    /\ forall (c : nat) (tp fn sup : float),
         tps !! c = Some tp -> fns !! c = Some fn -> sups !! c = Some sup ->
         fadd tp fn = sup.
Proof.
  intros pred target s.
  apply (none_support to_categorical_model get_num_classes_model pred target None 1 s).
  - repeat split; reflexivity.
  - vm_compute. discriminate.
  - vm_compute. reflexivity.
Defined.
